(** * FvCB photosynthesis evaluator ([src/backend/fvcb/evaluate.py])

    A shallow embedding of [evaluateFvCB] and a verification of its
    specification.

    Numbers.  The program computes with IEEE doubles (Python floats for the
    parameter values, numpy float64 scalars for the samples).  The embedding
    is written once over an interface [FloatOps] of the arithmetic the source
    uses, so that the control-flow results (which exceptions are raised, how
    the fixed-point loop exits, how samples relate to outputs) hold for every
    interpretation of the arithmetic, doubles with NaN and infinities
    included.  The numerical results are proved for the instance [R_ops] of
    exact real arithmetic; where rounding makes the program depart from
    them, the instance [B64_ops] of binary64 shows it.

    Exceptions.  Python raises [KeyError] for [p[k]] on an absent key and
    [ZeroDivisionError] for a division of Python floats by zero; numpy scalar
    arithmetic never raises (it yields inf or nan).  Fallible code lives in
    the monad [result]. *)

From Stdlib Require Import Floats.
From Stdlib Require Import Reals Lra Lia QArith.
From stdpp Require Import gmap strings list.

Local Open Scope string_scope.

(** ** Arithmetic interface *)

Class FloatOps (F : Type) := {
  fconst : Q -> F;            (* a numeric literal of the source *)
  fadd : F -> F -> F;
  fsub : F -> F -> F;
  fmul : F -> F -> F;
  fdiv : F -> F -> F;         (* numpy division: total, never raises *)
  fneg : F -> F;
  fabs : F -> F;              (* np.abs *)
  fexp : F -> F;              (* np.exp *)
  flog : F -> F;              (* np.log *)
  fsqrt : F -> F;             (* np.sqrt *)
  flt : F -> F -> bool;       (* x < y *)
  fle : F -> F -> bool;       (* x <= y *)
  fis_zero : F -> bool        (* x == 0 *)
}.

Declare Scope num_scope.
Delimit Scope num_scope with fl.
Notation "‹ q ›" := (fconst q%Q) (format "‹ q ›") : num_scope.
Infix "+" := fadd : num_scope.
Infix "-" := fsub : num_scope.
Infix "*" := fmul : num_scope.
Infix "/" := fdiv : num_scope.
Notation "- x" := (fneg x) : num_scope.

(** Exact real arithmetic.  Comparisons are decided by the order of [R]. *)
#[global] Instance R_ops : FloatOps R := {|
  fconst := Q2R;
  fadd := Rplus;
  fsub := Rminus;
  fmul := Rmult;
  fdiv := Rdiv;
  fneg := Ropp;
  fabs := Rabs;
  fexp := exp;
  flog := ln;
  fsqrt := sqrt;
  flt := fun x y => if Rlt_dec x y then true else false;
  fle := fun x y => if Rle_dec x y then true else false;
  fis_zero := fun x => if Req_dec_T x 0%R then true else false
|}.

(** Binary64, the arithmetic the program runs on.  The five operations,
    [abs], the comparisons and [sqrt] are those of IEEE 754, which Python
    floats and numpy float64 scalars share.  A literal [n / d] of the source is
    the double nearest to it: the correctly rounded quotient of [n] and [d],
    both below 2^53 in every literal of the source. *)
Definition b64_of_Z (z : Z) : float :=
  match z with
  | Z0 => PrimFloat.zero
  | Zpos _ => PrimFloat.of_uint63 (Uint63.of_Z z)
  | Zneg n => PrimFloat.opp (PrimFloat.of_uint63 (Uint63.of_Z (Zpos n)))
  end.

Definition b64_const (q : Q) : float :=
  PrimFloat.div (b64_of_Z (Qnum q)) (b64_of_Z (Zpos (Qden q))).

(** [np.exp] and [np.log] are library code and not operations of IEEE 754:
    the instance takes them as parameters [exp64] and [log64]. *)
Definition B64_ops (exp64 log64 : float -> float) : FloatOps float := {|
  fconst := b64_const;
  fadd := PrimFloat.add;
  fsub := PrimFloat.sub;
  fmul := PrimFloat.mul;
  fdiv := PrimFloat.div;
  fneg := PrimFloat.opp;
  fabs := PrimFloat.abs;
  fexp := exp64;
  flog := log64;
  fsqrt := PrimFloat.sqrt;
  flt := PrimFloat.ltb;
  fle := PrimFloat.leb;
  fis_zero := fun x => PrimFloat.eqb x PrimFloat.zero
|}.


(** ** Exceptions *)

Inductive error : Type :=
  | KeyError (k : string)
  | ZeroDivisionError.

Inductive result (A : Type) : Type :=
  | Ok (a : A)
  | Err (e : error).
Arguments Ok {A} a.
Arguments Err {A} e.

#[global] Instance result_ret : MRet result := fun A a => Ok a.
#[global] Instance result_bind : MBind result := fun A B k m =>
  match m with
  | Ok a => k a
  | Err e => Err e
  end.

(** [for s in xs: out.append(f(s))]: the first exception aborts the loop. *)
Fixpoint for_each {A B : Type} (f : A -> result B) (xs : list A) : result (list B) :=
  match xs with
  | [] => Ok []
  | s :: rest => v ← f s; vs ← for_each f rest; Ok (v :: vs)
  end.

(** How the [for _ in range(40)] loop was left. *)
Inductive loop_exit : Type :=
  | Converged     (* by [break] *)
  | CappedOut.    (* the range was exhausted *)

(** A sample is one row [Ci, Q, T] of the input array [x]. *)
Definition sample (F : Type) : Type := (F * F * F)%type.

Section FvCB.
Context {F : Type} {ops : FloatOps F}.
Local Open Scope num_scope.

(** [a / b] on Python floats. *)
Definition pydiv (a b : F) : result F :=
  if fis_zero b then Err ZeroDivisionError else Ok (a / b).

(** [max(a, b)] of Python: the first argument unless the second is greater. *)
Definition pymax (a b : F) : F := if flt a b then b else a.

(** [x ** 2] *)
Definition pow2 (x : F) : F := x * x.

(** [p[k]] *)
Definition getitem (p : gmap string F) (k : string) : result F :=
  match p !! k with
  | Some v => Ok v
  | None => Err (KeyError k)
  end.

(** Line 28.  [R = 0.008314] *)
Definition R_gas : F := ‹0.008314›.

(** Lines 31-36.  [T] is a numpy scalar, so [1 / T] does not raise; [dHa],
    [dHd] and [Topt] are Python floats, so [dHd / dHa] and [1 / Topt] do
    when the divisor is zero.  Divisions by the non-zero literals [R] and
    [298] cannot raise and are written with the total division. *)
Definition Tresp (T dHa dHd Topt : F) : result F :=
  let arrhenius := fexp (dHa / R_gas * (‹1› / ‹298› - ‹1› / T)) in
  q ← pydiv dHd dHa;
  let dHd_over_dHa := pymax q ‹1.0001› in
  i1 ← pydiv ‹1› Topt;
  let f298 := ‹1› + fexp (dHd / R_gas * (i1 - ‹1› / ‹298›) - flog (dHd_over_dHa - ‹1›)) in
  i2 ← pydiv ‹1› Topt;
  let fT := ‹1› + fexp (dHd / R_gas * (i2 - ‹1› / T) - flog (dHd_over_dHa - ‹1›)) in
  Ok (arrhenius * f298 / fT).

(** Line 64.  [hmin] works on numpy scalars only. *)
Definition hmin (f1 f2 : F) : F :=
  (f1 + f2 - fsqrt (pow2 (f1 + f2) - ‹4› * ‹0.999› * f1 * f2)) / (‹2› * ‹0.999›).

Section Closures.
(** The lambdas of the source close over the dict [p] and over the
    locals [a], [ia] and [alphaG]. *)
Variable p : gmap string F.

(** Lines 39-46.  The keys are looked up each time a lambda is called,
    left operand first, then the arguments from left to right. *)
Definition Vcmax (T : F) : result F :=
  v25 ← getitem p "Vcmax25";
  dHa ← getitem p "Vcmax_dHa";
  dHd ← getitem p "Vcmax_dHd";
  Topt ← getitem p "Vcmax_Topt";
  t ← Tresp T dHa dHd Topt;
  Ok (v25 * t).

Definition Jmax (T : F) : result F :=
  v25 ← getitem p "Jmax25";
  dHa ← getitem p "Jmax_dHa";
  dHd ← getitem p "Jmax_dHd";
  Topt ← getitem p "Jmax_Topt";
  t ← Tresp T dHa dHd Topt;
  Ok (v25 * t).

Definition TPU (T : F) : result F :=
  v25 ← getitem p "TPU25";
  dHa ← getitem p "TPU_dHa";
  dHd ← getitem p "TPU_dHd";
  Topt ← getitem p "TPU_Topt";
  t ← Tresp T dHa dHd Topt;
  Ok (v25 * t).

Definition Kc (T : F) : result F :=
  v25 ← getitem p "Kc25";
  dHa ← getitem p "Kc_dHa";
  t ← Tresp T dHa ‹500› ‹1000›;
  Ok (v25 * t).

Definition Ko (T : F) : result F :=
  v25 ← getitem p "Ko25";
  dHa ← getitem p "Ko_dHa";
  t ← Tresp T dHa ‹500› ‹1000›;
  Ok (v25 * t).

Definition Gamma (T : F) : result F :=
  v25 ← getitem p "GammaS25";
  dHa ← getitem p "GammaS_dHa";
  t ← Tresp T dHa ‹500› ‹1000›;
  Ok (v25 * t).

Definition Rd (T : F) : result F :=
  v25 ← getitem p "Rd25";
  dHa ← getitem p "Rd_dHa";
  t ← Tresp T dHa ‹500› ‹1000›;
  Ok (v25 * t).

Definition Kco (T : F) : result F :=
  kc ← Kc T;
  o ← getitem p "O";
  ko ← Ko T;
  Ok (kc * (‹1› + o / ko)).

(** Line 51.  [p['alpha'] * Q + Jmax(T)] is written three times in the
    source and evaluated three times. *)
Variables a ia : F.

Definition J (Q T : F) : result F :=
  al1 ← getitem p "alpha";
  jm1 ← Jmax T;
  al2 ← getitem p "alpha";
  jm2 ← Jmax T;
  al3 ← getitem p "alpha";
  jm3 ← Jmax T;
  Ok ((- - (al1 * Q + jm1)
       - fsqrt (pow2 (- (al2 * Q + jm2)) - ‹4› * a * (al3 * Q * jm3)))
      * ‹0.5› * ia).

(** Line 54. *)
Definition vr (Ci T : F) : result F :=
  vc ← Vcmax T;
  g ← Gamma T;
  kco ← Kco T;
  rd ← Rd T;
  Ok (vc * ((Ci - g) / (Ci + kco)) - rd).

(** Line 57. *)
Definition jr (Ci Q T : F) : result F :=
  j ← J Q T;
  g1 ← Gamma T;
  g2 ← Gamma T;
  rd ← Rd T;
  Ok (‹0.25› * j * ((Ci - g1) / (Ci + ‹2› * g2)) - rd).

(** Lines 60-61. *)
Variable alphaG : F.

Definition tpu (Ci T : F) : result F :=
  t ← TPU T;
  g1 ← Gamma T;
  g2 ← Gamma T;
  Ok (‹3› * t * ((Ci - g1) / (Ci - (‹1› + ‹3› * alphaG) * g2))).

(** Line 78.  The arguments of [hmin] are evaluated from left to right. *)
Definition A_given_Cc (Cc Q T : F) : result F :=
  t ← tpu Cc T;
  v ← vr Cc T;
  j ← jr Cc Q T;
  Ok (hmin t (hmin v j)).

(** Lines 102-107, the loop [for _ in range(n)] started with [Cc].  The
    result is the value of [Cc] after the loop; the number of times the
    body ran and the way the loop was left are ghost results, which the
    source does not keep. *)
Fixpoint fixed_point (n : nat) (gm Ci_i Q_i T_i Cc : F) : result (F * nat * loop_exit) :=
  match n with
  | O => Ok (Cc, O, CappedOut)
  | S n' =>
      A_i ← A_given_Cc Cc Q_i T_i;
      let Cc_new := Ci_i - A_i / gm in
      if flt (fabs (Cc_new - Cc)) ‹0.000001›
      then Ok (Cc, 1%nat, Converged)
      else '(Cc', k, e) ← fixed_point n' gm Ci_i Q_i T_i Cc_new;
           Ok (Cc', S k, e)
  end.

(** Lines 91-109, the body of [for i in range(len(Ci))]; its result is
    the value stored in [A_out[i]]. *)
Definition eval_sample (gm : option F) (s : sample F) : result F :=
  let '(Ci_i, Q_i, T_i) := s in
  match gm with
  | None => A_given_Cc Ci_i Q_i T_i
  | Some g =>
      if fle g ‹0› then A_given_Cc Ci_i Q_i T_i
      else
        let Cc := Ci_i - ‹20› / ‹0.2› in
        '(Cc', _, _) ← fixed_point 40 g Ci_i Q_i T_i Cc;
        A_given_Cc Cc' Q_i T_i
  end.
End Closures.

(** Lines 4-111, for [p] a dict.  [theta] and [alphaG] are read when the
    function starts; every other key is read inside a lambda. *)
Definition evaluateFvCB (x : list (sample F)) (p : gmap string F) : result (list F) :=
  theta ← getitem p "theta";
  let a := pymax theta ‹0.0001› in
  ia ← pydiv ‹1› a;
  alphaG ← getitem p "alphaG";
  let gm := p !! "gm" in
  for_each (eval_sample p a ia alphaG gm) x.

End FvCB.

(** ** Notions used in the statements *)

Definition status {A : Type} (r : result A) : option error :=
  match r with
  | Ok _ => None
  | Err e => Some e
  end.

(** The keys read inside the lambdas, in the order of their first use. *)
Definition lazy_keys : list string :=
  [ "TPU25"; "TPU_dHa"; "TPU_dHd"; "TPU_Topt"; "GammaS25"; "GammaS_dHa";
    "Vcmax25"; "Vcmax_dHa"; "Vcmax_dHd"; "Vcmax_Topt";
    "Kc25"; "Kc_dHa"; "O"; "Ko25"; "Ko_dHa"; "Rd25"; "Rd_dHa";
    "alpha"; "Jmax25"; "Jmax_dHa"; "Jmax_dHd"; "Jmax_Topt" ].

(** The keys whose value divides: every [dHa], and the [Topt] of the three
    peaked rates. *)
Definition divisor_keys : list string :=
  [ "TPU_dHa"; "TPU_Topt"; "GammaS_dHa"; "Vcmax_dHa"; "Vcmax_Topt";
    "Kc_dHa"; "Ko_dHa"; "Rd_dHa"; "Jmax_dHa"; "Jmax_Topt" ].


(** Some division of [Tresp] has a zero divisor: the value of a divisor key,
    or the literal [1000] should the arithmetic take it for zero. *)
Definition zero_divisor {F : Type} {ops : FloatOps F} (p : gmap string F) : Prop :=
  fis_zero (fconst 1000) = true
  \/ exists k d, k ∈ divisor_keys /\ p !! k = Some d /\ fis_zero d = true.

(** The exceptions a call of a lambda can raise on the dict [p]: a division
    by zero, with a zero divisor to show for it, or the lookup of an absent
    key. *)
Definition raised_by {F : Type} {ops : FloatOps F} (p : gmap string F) (e : error) : Prop :=
  (e = ZeroDivisionError /\ zero_divisor p)
  \/ exists k, k ∈ lazy_keys /\ p !! k = None /\ e = KeyError k.

(** Two runs agree when both return, or both raise the same exception. *)
Inductive agree {F A : Type} {ops : FloatOps F} (p : gmap string F) :
    result A -> result A -> Prop :=
  | agree_ok v v' : agree p (Ok v) (Ok v')
  | agree_err e : raised_by p e -> agree p (Err e) (Err e).

(** The keys of a rate with a peaked response, and of an Arrhenius rate. *)
Definition rate_keys (name : string) : list string :=
  [ name +:+ "25"; name +:+ "_dHa"; name +:+ "_dHd"; name +:+ "_Topt" ].
Definition arrhenius_keys (name : string) : list string :=
  [ name +:+ "25"; name +:+ "_dHa" ].

(** A run that returns has found the keys [ks] in [p]. *)
Definition reads {F A : Type} (p : gmap string F) (ks : list string) (r : result A) : Prop :=
  forall v, r = Ok v -> Forall (fun k => is_Some (p !! k)) ks.

(** The keys read when [evaluateFvCB] starts, and all the keys it needs. *)
Definition eager_keys : list string := [ "theta"; "alphaG" ].
Definition required_keys : list string := eager_keys ++ lazy_keys.

(** A parameter set is usable when it has every required key and no
    divisor is zero. *)
Definition params_ok {F : Type} {ops : FloatOps F} (p : gmap string F) : Prop :=
  (forall k, k ∈ required_keys -> is_Some (p !! k))
  /\ (forall k d, k ∈ divisor_keys -> p !! k = Some d -> fis_zero d = false).


(** The key [k] is present and its value is not zero. *)
Definition divides_ok {F : Type} {ops : FloatOps F} (p : gmap string F) (k : string) : Prop :=
  exists d, p !! k = Some d /\ fis_zero d = false.


(** [l[idx]] for a list of row numbers [idx], all of them in range. *)
Definition rows {A : Type} (idx : list nat) (l : list A) : list A :=
  omap (fun i => l !! i) idx.

Section Iterates.
Context {F : Type} {ops : FloatOps F}.
Variables (p : gmap string F) (a ia alphaG gm Ci_i Q_i T_i : F).
Local Open Scope num_scope.

(** The value of [A_given_Cc(Cc, Q_i, T_i)] when the call returns. *)
Definition A_value (Cc : F) : F :=
  match A_given_Cc p a ia alphaG Cc Q_i T_i with
  | Ok v => v
  | Err _ => Cc
  end.

(** The iterates of the fixed-point recursion as the specification writes
    them: [Cc_0 = Ci - 20/0.2] and [Cc_(k+1) = Ci - A(Cc_k, Q, T) / gm]. *)
Fixpoint Cc_seq (k : nat) : F :=
  match k with
  | O => Ci_i - ‹20› / ‹0.2›
  | S k' => Ci_i - A_value (Cc_seq k') / gm
  end.

(** The convergence test between [Cc_k] and [Cc_(k+1)]. *)
Definition converged_at (k : nat) : bool :=
  flt (fabs (Cc_seq (S k) - Cc_seq k)) ‹0.000001›.

(** What a run of [n] rounds started at [Cc_j] leaves behind: the final
    [Cc'], the number [k] of rounds made and the kind of exit. *)
Definition loop_post (n j : nat) (Cc' : F) (k : nat) (e : loop_exit) : Prop :=
  match e with
  | Converged =>
      exists m, k = S m /\ (m < n)%nat /\ Cc' = Cc_seq (j + m)
                /\ converged_at (j + m) = true
                /\ forall i, (i < m)%nat -> converged_at (j + i) = false
  | CappedOut =>
      k = n /\ Cc' = Cc_seq (j + n)
      /\ forall i, (i < n)%nat -> converged_at (j + i) = false
  end.
End Iterates.


(** The discriminant of the quadratic solved by [hmin], over the reals. *)
Definition hdisc (f1 f2 : R) : R :=
  ((f1 + f2) * (f1 + f2) - 4 * 0.999 * f1 * f2)%R.

(** [hmin(x, x) / x] for [x > 0]. *)
Definition hmin_factor : R := ((1 - sqrt (1 - 0.999)) / 0.999)%R.

(** *** Parameter sets used as examples *)

(** The scenario of the specification (section 8), without [gm]. *)
Definition p_std : gmap string R := list_to_map [
  ("Vcmax25", 100); ("Vcmax_dHa", 65); ("Vcmax_dHd", 200); ("Vcmax_Topt", 311);
  ("Jmax25", 200); ("Jmax_dHa", 46); ("Jmax_dHd", 200); ("Jmax_Topt", 311);
  ("TPU25", 20); ("TPU_dHa", 53); ("TPU_dHd", 201); ("TPU_Topt", 306);
  ("Kc25", 270); ("Kc_dHa", 81); ("Ko25", 165); ("Ko_dHa", 24);
  ("GammaS25", 38); ("GammaS_dHa", 24); ("Rd25", 1); ("Rd_dHa", 46);
  ("O", 210); ("alpha", 0.3); ("theta", 0.7); ("alphaG", 0) ]%R.

(** A leaf in the dark with neither triose-phosphate use nor respiration:
    at 298 K and [Q = 0] the assimilation is [(Cc - 40) / (Cc + 180)] for
    [-180 < Cc < 40]. *)
Definition p_dark : gmap string R := list_to_map [
  ("Vcmax25", 0.998001); ("Vcmax_dHa", 65); ("Vcmax_dHd", 200); ("Vcmax_Topt", 311);
  ("Jmax25", 0); ("Jmax_dHa", 46); ("Jmax_dHd", 200); ("Jmax_Topt", 311);
  ("TPU25", 0); ("TPU_dHa", 53); ("TPU_dHd", 201); ("TPU_Topt", 306);
  ("Kc25", 180); ("Kc_dHa", 81); ("Ko25", 165); ("Ko_dHa", 24);
  ("GammaS25", 40); ("GammaS_dHa", 24); ("Rd25", 0); ("Rd_dHa", 46);
  ("O", 0); ("alpha", 0.3); ("theta", 0.7); ("alphaG", 0) ]%R.

Definition A_dark (Cc : R) : R := ((Cc - 40) / (Cc + 180))%R.

(** The same leaf with a very large mesophyll conductance. *)
Definition p_dark_gm : gmap string R := <["gm" := 10000000%R]> p_dark.

(** The first two iterates of the fixed-point loop for the sample
    [(30, 0, 298)] on [p_dark_gm]. *)
Definition Cc1_dark : R := 30.0000001%R.
Definition Cc2_dark : R := (30 - A_dark Cc1_dark / 10000000)%R.

(** With the conductance [1e-6] the iterates of the same sample never
    settle: they start at -70, jump to 1000030 and from then on alternate
    between 30 and [Cc_far]. *)
Definition Cc_far : R := (30 - A_dark 30 / 0.000001)%R.
(** ** Control flow, for every interpretation of the arithmetic *)

Ltac in_keys := unfold lazy_keys; repeat constructor.

Section Control.
Context {F : Type} {ops : FloatOps F}.
Implicit Types (p : gmap string F) (a ia alphaG Cc Q T : F).

Lemma agree_bind {A B} p (m m' : result A) (k k' : A -> result B) :
  agree p m m' -> (forall v v', agree p (k v) (k' v')) ->
  agree p (m ≫= k) (m' ≫= k').
Proof.
  intros Hm Hk. destruct Hm; cbn [mbind result_bind]; [apply Hk | by constructor].
Qed.

Lemma agree_bind_eq {A B} p (m : result A) (k k' : A -> result B) :
  agree p m m -> (forall v, agree p (k v) (k' v)) ->
  agree p (m ≫= k) (m ≫= k').
Proof.
  intros Hm Hk. destruct m; cbn [mbind result_bind]; [apply Hk |].
  inversion Hm; subst. by constructor.
Qed.

Lemma agree_bind_get {A} p key (k k' : F -> result A) :
  key ∈ lazy_keys -> (forall v, p !! key = Some v -> agree p (k v) (k' v)) ->
  agree p (getitem p key ≫= k) (getitem p key ≫= k').
Proof.
  intros Hkey Hk. unfold getitem. destruct (p !! key) eqn:E; cbn [mbind result_bind].
  - by apply Hk.
  - constructor. right. eauto.
Qed.

Lemma agree_pydiv p (x y : F) :
  (fis_zero y = true -> zero_divisor p) -> agree p (pydiv x y) (pydiv x y).
Proof.
  intros Hy. unfold pydiv. destruct (fis_zero y); constructor. left. auto.
Qed.

Lemma agree_Tresp p T T' dHa dHd Topt :
  (fis_zero dHa = true -> zero_divisor p) ->
  (fis_zero Topt = true -> zero_divisor p) ->
  agree p (Tresp T dHa dHd Topt) (Tresp T' dHa dHd Topt).
Proof.
  intros Ha Ht. unfold Tresp.
  apply agree_bind_eq; [by apply agree_pydiv | intros ?].
  apply agree_bind_eq; [by apply agree_pydiv | intros ?].
  apply agree_bind_eq; [by apply agree_pydiv | intros ?].
  apply agree_ok.
Qed.

(** A zero value read at a divisor key is a zero divisor. *)
Ltac zero_div :=
  let Hz := fresh "Hz" in
  intros Hz;
  first
    [ by left
    | right;
      match goal with
      | L : ?p !! ?k = Some ?d, Hz : fis_zero ?d = true |- _ =>
          exists k, d; split;
          [ unfold divisor_keys; solve [repeat constructor]
          | split; [exact L | exact Hz] ]
      end ].

Ltac agree_step :=
  first
    [ apply agree_ok
    | apply agree_bind_get; [in_keys | intros ? ?]
    | apply agree_bind; [first [apply agree_Tresp; zero_div | solve [eauto]] | intros ? ?] ].

Lemma agree_Vcmax p T T' : agree p (Vcmax p T) (Vcmax p T').
Proof. unfold Vcmax. repeat agree_step. Qed.
Lemma agree_Jmax p T T' : agree p (Jmax p T) (Jmax p T').
Proof. unfold Jmax. repeat agree_step. Qed.
Lemma agree_TPU p T T' : agree p (TPU p T) (TPU p T').
Proof. unfold TPU. repeat agree_step. Qed.
Lemma agree_Kc p T T' : agree p (Kc p T) (Kc p T').
Proof. unfold Kc. repeat agree_step. Qed.
Lemma agree_Ko p T T' : agree p (Ko p T) (Ko p T').
Proof. unfold Ko. repeat agree_step. Qed.
Lemma agree_Gamma p T T' : agree p (Gamma p T) (Gamma p T').
Proof. unfold Gamma. repeat agree_step. Qed.
Lemma agree_Rd p T T' : agree p (Rd p T) (Rd p T').
Proof. unfold Rd. repeat agree_step. Qed.
Hint Resolve agree_Vcmax agree_Jmax agree_TPU agree_Kc agree_Ko agree_Gamma agree_Rd : core.

Lemma agree_Kco p T T' : agree p (Kco p T) (Kco p T').
Proof. unfold Kco. repeat agree_step. Qed.
Hint Resolve agree_Kco : core.

Lemma agree_J p a ia Q T a' ia' Q' T' : agree p (J p a ia Q T) (J p a' ia' Q' T').
Proof. unfold J. repeat agree_step. Qed.
Hint Resolve agree_J : core.

Lemma agree_vr p Ci T Ci' T' : agree p (vr p Ci T) (vr p Ci' T').
Proof. unfold vr. repeat agree_step. Qed.
Lemma agree_jr p a ia Ci Q T a' ia' Ci' Q' T' :
  agree p (jr p a ia Ci Q T) (jr p a' ia' Ci' Q' T').
Proof. unfold jr. repeat agree_step. Qed.
Lemma agree_tpu p alphaG Ci T alphaG' Ci' T' :
  agree p (tpu p alphaG Ci T) (tpu p alphaG' Ci' T').
Proof. unfold tpu. repeat agree_step. Qed.
Hint Resolve agree_vr agree_jr agree_tpu : core.

Lemma agree_A_given_Cc p a ia alphaG Cc Q T a' ia' alphaG' Cc' Q' T' :
  agree p (A_given_Cc p a ia alphaG Cc Q T) (A_given_Cc p a' ia' alphaG' Cc' Q' T').
Proof. unfold A_given_Cc. repeat agree_step. Qed.

(** Every lambda behaves the same way on all samples: it raises the same
    exception for all of them, or returns for all of them. *)
Lemma A_given_Cc_cases p :
  (exists e, raised_by p e /\
     forall a ia alphaG Cc Q T, A_given_Cc p a ia alphaG Cc Q T = Err e)
  \/ (forall a ia alphaG Cc Q T, exists v, A_given_Cc p a ia alphaG Cc Q T = Ok v).
Proof.
  set (z := fconst 0).
  destruct (A_given_Cc p z z z z z z) as [v0|e] eqn:E0.
  - right. intros a ia alphaG Cc Q T.
    pose proof (agree_A_given_Cc p z z z z z z a ia alphaG Cc Q T) as H.
    rewrite E0 in H. inversion H. eauto.
  - left. exists e.
    assert (raised_by p e) as He.
    { pose proof (agree_A_given_Cc p z z z z z z z z z z z z) as H.
      rewrite E0 in H. by inversion H. }
    split; [done |]. intros a ia alphaG Cc Q T.
    pose proof (agree_A_given_Cc p z z z z z z a ia alphaG Cc Q T) as H.
    rewrite E0 in H. by inversion H.
Qed.

(** *** The keys a successful call has read *)

Lemma reads_nil {A} p (r : result A) : reads p [] r.
Proof. intros v _. constructor. Qed.

Lemma reads_bind_get {A} p key ks (k : F -> result A) :
  (forall v, reads p ks (k v)) -> reads p (key :: ks) (getitem p key ≫= k).
Proof.
  intros Hk v. unfold getitem. destruct (p !! key) eqn:E; cbn [mbind result_bind].
  - intros H. constructor; [by eexists | by eapply Hk].
  - discriminate.
Qed.

Lemma reads_bind_skip {A B} p ks (m : result A) (k : A -> result B) :
  (forall v, reads p ks (k v)) -> reads p ks (m ≫= k).
Proof.
  intros Hk v. destruct m; cbn [mbind result_bind]; [apply Hk | discriminate].
Qed.

Lemma reads_bind_app {A B} p ks1 ks2 (m : result A) (k : A -> result B) :
  reads p ks1 m -> (forall v, reads p ks2 (k v)) -> reads p (ks1 ++ ks2) (m ≫= k).
Proof.
  intros Hm Hk v. destruct m as [w|]; cbn [mbind result_bind]; [| discriminate].
  intros H. apply Forall_app. split; [by eapply Hm | by eapply Hk].
Qed.

Ltac reads_leaf :=
  repeat first
    [ apply reads_nil
    | apply reads_bind_get; intros ?
    | apply reads_bind_skip; intros ? ].

Lemma reads_Vcmax p T : reads p (rate_keys "Vcmax") (Vcmax p T).
Proof. unfold Vcmax. reads_leaf. Qed.
Lemma reads_Jmax p T : reads p (rate_keys "Jmax") (Jmax p T).
Proof. unfold Jmax. reads_leaf. Qed.
Lemma reads_TPU p T : reads p (rate_keys "TPU") (TPU p T).
Proof. unfold TPU. reads_leaf. Qed.
Lemma reads_Kc p T : reads p (arrhenius_keys "Kc") (Kc p T).
Proof. unfold Kc. reads_leaf. Qed.
Lemma reads_Ko p T : reads p (arrhenius_keys "Ko") (Ko p T).
Proof. unfold Ko. reads_leaf. Qed.
Lemma reads_Gamma p T : reads p (arrhenius_keys "GammaS") (Gamma p T).
Proof. unfold Gamma. reads_leaf. Qed.
Lemma reads_Rd p T : reads p (arrhenius_keys "Rd") (Rd p T).
Proof. unfold Rd. reads_leaf. Qed.

Lemma reads_Kco p T :
  reads p (arrhenius_keys "Kc" ++ "O" :: arrhenius_keys "Ko") (Kco p T).
Proof.
  unfold Kco. apply reads_bind_app; [apply reads_Kc | intros ?].
  apply reads_bind_get; intros ?.
  rewrite <- (app_nil_r (arrhenius_keys "Ko")).
  apply reads_bind_app; [apply reads_Ko | intros ?; apply reads_nil].
Qed.

Lemma reads_J p a ia Q T : reads p ("alpha" :: rate_keys "Jmax") (J p a ia Q T).
Proof.
  unfold J. apply reads_bind_get; intros ?.
  rewrite <- (app_nil_r (rate_keys "Jmax")).
  apply reads_bind_app; [apply reads_Jmax | intros ?].
  reads_leaf.
Qed.

Lemma reads_vr p Ci T :
  reads p (rate_keys "Vcmax" ++ arrhenius_keys "GammaS"
           ++ (arrhenius_keys "Kc" ++ "O" :: arrhenius_keys "Ko")
           ++ arrhenius_keys "Rd") (vr p Ci T).
Proof.
  unfold vr. apply reads_bind_app; [apply reads_Vcmax | intros ?].
  apply reads_bind_app; [apply reads_Gamma | intros ?].
  apply reads_bind_app; [apply reads_Kco | intros ?].
  rewrite <- (app_nil_r (arrhenius_keys "Rd")).
  apply reads_bind_app; [apply reads_Rd | intros ?; apply reads_nil].
Qed.

Lemma reads_jr p a ia Ci Q T :
  reads p ("alpha" :: rate_keys "Jmax") (jr p a ia Ci Q T).
Proof.
  unfold jr. rewrite <- (app_nil_r (_ :: _)).
  apply reads_bind_app; [apply reads_J | intros ?]. reads_leaf.
Qed.

Lemma reads_tpu p alphaG Ci T :
  reads p (rate_keys "TPU" ++ arrhenius_keys "GammaS") (tpu p alphaG Ci T).
Proof.
  unfold tpu. apply reads_bind_app; [apply reads_TPU | intros ?].
  rewrite <- (app_nil_r (arrhenius_keys "GammaS")).
  apply reads_bind_app; [apply reads_Gamma | intros ?]. reads_leaf.
Qed.

(** A call of [A_given_Cc] that returns has found every lazy key. *)
Lemma A_given_Cc_Ok_keys p a ia alphaG Cc Q T v :
  A_given_Cc p a ia alphaG Cc Q T = Ok v ->
  forall k, k ∈ lazy_keys -> is_Some (p !! k).
Proof.
  intros HA.
  assert (reads p ((rate_keys "TPU" ++ arrhenius_keys "GammaS")
                   ++ (rate_keys "Vcmax" ++ arrhenius_keys "GammaS"
                       ++ (arrhenius_keys "Kc" ++ "O" :: arrhenius_keys "Ko")
                       ++ arrhenius_keys "Rd")
                   ++ ("alpha" :: rate_keys "Jmax"))
            (A_given_Cc p a ia alphaG Cc Q T)) as Hr.
  { unfold A_given_Cc.
    apply reads_bind_app; [apply reads_tpu | intros ?].
    apply reads_bind_app; [apply reads_vr | intros ?].
    rewrite <- (app_nil_r (_ :: _)).
    apply reads_bind_app; [apply reads_jr | intros ?]. apply reads_nil. }
  specialize (Hr v HA). rewrite Forall_forall in Hr.
  intros k Hk. apply Hr. clear -Hk.
  unfold lazy_keys in Hk. cbn.
  repeat (apply elem_of_cons in Hk as [-> | Hk]; [in_keys |]).
  by apply elem_of_nil in Hk.
Qed.

(** A missing lazy key makes every call of [A_given_Cc] raise. *)
Lemma A_given_Cc_missing p k :
  k ∈ lazy_keys -> p !! k = None ->
  exists e, raised_by p e /\
    forall a ia alphaG Cc Q T, A_given_Cc p a ia alphaG Cc Q T = Err e.
Proof.
  intros Hk Hnone. destruct (A_given_Cc_cases p) as [He | Hok]; [done |].
  destruct (Hok (fconst 0) (fconst 0) (fconst 0) (fconst 0) (fconst 0) (fconst 0))
    as [v Hv].
  destruct (A_given_Cc_Ok_keys _ _ _ _ _ _ _ _ Hv k Hk) as [w Hw]. congruence.
Qed.

(** *** Only the lazy keys matter to the lambdas *)

Section Ext.
Variables p p' : gmap string F.
Hypothesis Hpp : forall k, k ∈ lazy_keys -> p !! k = p' !! k.

Ltac ext_keys := unfold getitem; rewrite !Hpp by in_keys; reflexivity.

Lemma Vcmax_ext T : Vcmax p T = Vcmax p' T.
Proof. unfold Vcmax. ext_keys. Qed.
Lemma Jmax_ext T : Jmax p T = Jmax p' T.
Proof. unfold Jmax. ext_keys. Qed.
Lemma TPU_ext T : TPU p T = TPU p' T.
Proof. unfold TPU. ext_keys. Qed.
Lemma Kc_ext T : Kc p T = Kc p' T.
Proof. unfold Kc. ext_keys. Qed.
Lemma Ko_ext T : Ko p T = Ko p' T.
Proof. unfold Ko. ext_keys. Qed.
Lemma Gamma_ext T : Gamma p T = Gamma p' T.
Proof. unfold Gamma. ext_keys. Qed.
Lemma Rd_ext T : Rd p T = Rd p' T.
Proof. unfold Rd. ext_keys. Qed.
Lemma Kco_ext T : Kco p T = Kco p' T.
Proof. unfold Kco. rewrite Kc_ext, Ko_ext. ext_keys. Qed.
Lemma J_ext a ia Q T : J p a ia Q T = J p' a ia Q T.
Proof. unfold J. rewrite !Jmax_ext. ext_keys. Qed.
Lemma vr_ext Ci T : vr p Ci T = vr p' Ci T.
Proof. unfold vr. by rewrite Vcmax_ext, Gamma_ext, Kco_ext, Rd_ext. Qed.
Lemma jr_ext a ia Ci Q T : jr p a ia Ci Q T = jr p' a ia Ci Q T.
Proof. unfold jr. by rewrite J_ext, !Gamma_ext, Rd_ext. Qed.
Lemma tpu_ext alphaG Ci T : tpu p alphaG Ci T = tpu p' alphaG Ci T.
Proof. unfold tpu. by rewrite TPU_ext, !Gamma_ext. Qed.

Lemma A_given_Cc_ext a ia alphaG Cc Q T :
  A_given_Cc p a ia alphaG Cc Q T = A_given_Cc p' a ia alphaG Cc Q T.
Proof. unfold A_given_Cc. by rewrite tpu_ext, vr_ext, jr_ext. Qed.

Lemma fixed_point_ext a ia alphaG n gm Ci Q T Cc :
  fixed_point p a ia alphaG n gm Ci Q T Cc
  = fixed_point p' a ia alphaG n gm Ci Q T Cc.
Proof.
  revert Cc. induction n as [| n IH]; intros Cc; [reflexivity |].
  cbn [fixed_point]. rewrite A_given_Cc_ext.
  destruct (A_given_Cc p' a ia alphaG Cc Q T); cbn [mbind result_bind]; [| done].
  by rewrite IH.
Qed.

Lemma eval_sample_ext a ia alphaG gm s :
  eval_sample p a ia alphaG gm s = eval_sample p' a ia alphaG gm s.
Proof.
  destruct s as [[Ci Q] T]. unfold eval_sample.
  destruct gm as [g |]; [| apply A_given_Cc_ext].
  destruct (fle g _); [apply A_given_Cc_ext |].
  rewrite fixed_point_ext.
  destruct (fixed_point p' _ _ _ _ _ _ _ _ _) as [[[Cc' k] e] |];
    cbn [mbind result_bind]; [apply A_given_Cc_ext | done].
Qed.
End Ext.

(** *** The loop over the samples *)

Lemma for_each_Ok_inv {A B} (f : A -> result B) xs out :
  for_each f xs = Ok out ->
  length out = length xs /\
  forall i s, xs !! i = Some s -> exists v, out !! i = Some v /\ f s = Ok v.
Proof.
  revert out. induction xs as [| s xs IH]; intros out; cbn [for_each].
  - intros [= <-]. split; [done |]. intros i s. by rewrite lookup_nil.
  - destruct (f s) as [v |] eqn:Ef; cbn [mbind result_bind]; [| done].
    destruct (for_each f xs) as [vs |]; cbn [mbind result_bind]; [| done].
    intros [= <-]. destruct (IH vs eq_refl) as [Hlen Hi].
    split; [cbn; by rewrite Hlen |].
    intros [| i] s'; cbn; [intros [= <-]; eauto | apply Hi].
Qed.

Lemma for_each_Ok {A B} (f : A -> result B) xs :
  (forall s, s ∈ xs -> exists v, f s = Ok v) -> exists out, for_each f xs = Ok out.
Proof.
  induction xs as [| s xs IH]; intros Hf; cbn [for_each]; [by eexists |].
  destruct (Hf s) as [v ->]; [by left |]. cbn [mbind result_bind].
  destruct IH as [vs ->]; [intros; apply Hf; by right |]. by eexists.
Qed.

Lemma for_each_Err {A B} (f : A -> result B) xs e :
  xs <> [] -> (forall s, f s = Err e) -> for_each f xs = Err e.
Proof.
  intros Hne Hf. destruct xs as [| s xs]; [done |].
  cbn [for_each]. by rewrite Hf.
Qed.

Lemma for_each_rows {A B} (f : A -> result B) xs out idx :
  for_each f xs = Ok out -> Forall (fun i => (i < length xs)%nat) idx ->
  for_each f (rows idx xs) = Ok (rows idx out).
Proof.
  intros Hrun Hidx. destruct (for_each_Ok_inv _ _ _ Hrun) as [_ Hi].
  induction Hidx as [| i idx Hlt _ IH]; [done |].
  destruct (lookup_lt_is_Some_2 xs i Hlt) as [s Hs].
  destruct (Hi i s Hs) as (v & Hv & Hf).
  unfold rows in *. cbn [omap list_omap]. rewrite Hs, Hv. cbn [for_each].
  rewrite Hf. cbn [mbind result_bind]. rewrite IH. done.
Qed.

Lemma for_each_ext {A B} (f g : A -> result B) xs :
  (forall s, f s = g s) -> for_each f xs = for_each g xs.
Proof.
  intros Hfg. induction xs as [| s xs IH]; [done |].
  cbn [for_each]. by rewrite Hfg, IH.
Qed.

(** *** The fixed-point loop *)

Section Loop.
Variables (p : gmap string F) (a ia alphaG g Ci Q T : F).
Local Open Scope num_scope.

Lemma A_value_Ok Cc v :
  A_given_Cc p a ia alphaG Cc Q T = Ok v -> A_value p a ia alphaG Q T Cc = v.
Proof. unfold A_value. by intros ->. Qed.

(** The loop makes at most [n] rounds. *)
Lemma fixed_point_rounds n Cc Cc' k e :
  fixed_point p a ia alphaG n g Ci Q T Cc = Ok (Cc', k, e) ->
  (k <= n)%nat /\ (e = CappedOut -> k = n) /\ (e = Converged -> (1 <= k)%nat).
Proof.
  revert Cc Cc' k e. induction n as [| n IH]; intros Cc Cc' k e; cbn [fixed_point].
  - intros [= <- <- <-]. by repeat split.
  - destruct (A_given_Cc p a ia alphaG Cc Q T) as [A_i |]; cbn [mbind result_bind]; [| done].
    destruct (flt _ _).
    + intros [= <- <- <-]. repeat split; [lia | done | lia].
    + destruct (fixed_point p a ia alphaG n g Ci Q T _) as [[[c1 k1] e1] |] eqn:E;
        cbn [mbind result_bind]; [| done].
      intros [= <- <- <-]. destruct (IH _ _ _ _ E) as (H1 & H2 & H3).
      repeat split; [lia | intros He; by rewrite H2 | lia].
Qed.


(** An exception of [A_given_Cc] leaves the loop in its first round. *)
Lemma fixed_point_Err n Cc e :
  A_given_Cc p a ia alphaG Cc Q T = Err e ->
  fixed_point p a ia alphaG (S n) g Ci Q T Cc = Err e.
Proof. intros H. cbn [fixed_point]. by rewrite H. Qed.

Hypothesis Htotal : forall Cc, exists v, A_given_Cc p a ia alphaG Cc Q T = Ok v.

(** The loop follows the iterates of the specification. *)
Lemma fixed_point_from n j :
  exists Cc' k e,
    fixed_point p a ia alphaG n g Ci Q T (Cc_seq p a ia alphaG g Ci Q T j)
    = Ok (Cc', k, e)
    /\ loop_post p a ia alphaG g Ci Q T n j Cc' k e.
Proof.
  revert j. induction n as [| n IH]; intros j; cbn [fixed_point].
  - eexists _, _, _. split; [reflexivity |]. cbn.
    repeat split; [f_equal; lia | lia].
  - destruct (Htotal (Cc_seq p a ia alphaG g Ci Q T j)) as [v Hv].
    rewrite Hv. cbn [mbind result_bind].
    assert (Ci - v / g = Cc_seq p a ia alphaG g Ci Q T (S j)) as Hnext.
    { cbn [Cc_seq]. by rewrite (A_value_Ok _ _ Hv). }
    rewrite Hnext.
    destruct (flt _ _) eqn:Et.
    + eexists _, _, _. split; [reflexivity |]. exists 0%nat.
      rewrite Nat.add_0_r. repeat split; [lia | exact Et | lia].
    + destruct (IH (S j)) as (Cc' & k & e & Hrun & Hpost).
      rewrite Hrun. cbn [mbind result_bind].
      eexists _, _, _. split; [reflexivity |].
      destruct e; cbn in Hpost |- *.
      * destruct Hpost as (m & -> & Hm & HCc & Hconv & Hbefore).
        exists (S m). replace (j + S m)%nat with (S j + m)%nat by lia.
        repeat split; [lia | done | done |].
        intros [| i] Hi; [by rewrite Nat.add_0_r |].
        replace (j + S i)%nat with (S j + i)%nat by lia. apply Hbefore. lia.
      * destruct Hpost as (-> & HCc & Hbefore).
        replace (j + S n)%nat with (S j + n)%nat by lia.
        repeat split; [done |].
        intros [| i] Hi; [by rewrite Nat.add_0_r |].
        replace (j + S i)%nat with (S j + i)%nat by lia. apply Hbefore. lia.
Qed.
End Loop.

(** *** The whole function *)

Local Open Scope num_scope.

Lemma evaluateFvCB_Ok_inv x p out :
  evaluateFvCB x p = Ok out ->
  exists theta ia alphaG,
    p !! "theta" = Some theta /\ pydiv ‹1› (pymax theta ‹0.0001›) = Ok ia
    /\ p !! "alphaG" = Some alphaG
    /\ for_each (eval_sample p (pymax theta ‹0.0001›) ia alphaG (p !! "gm")) x = Ok out.
Proof.
  unfold evaluateFvCB, getitem.
  destruct (p !! "theta") as [theta |]; cbn [mbind result_bind]; [| done].
  destruct (pydiv _ _) as [ia |] eqn:Ed; cbn [mbind result_bind]; [| done].
  destruct (p !! "alphaG") as [alphaG |]; cbn [mbind result_bind]; [| done].
  intros H. by eexists _, _, _.
Qed.

Lemma evaluateFvCB_intro x p theta ia alphaG :
  p !! "theta" = Some theta -> pydiv ‹1› (pymax theta ‹0.0001›) = Ok ia ->
  p !! "alphaG" = Some alphaG ->
  evaluateFvCB x p
  = for_each (eval_sample p (pymax theta ‹0.0001›) ia alphaG (p !! "gm")) x.
Proof.
  intros H1 H2 H3. unfold evaluateFvCB, getitem.
  rewrite H1. cbn [mbind result_bind]. rewrite H2. cbn [mbind result_bind].
  by rewrite H3.
Qed.

(** The sample loop body raises what [A_given_Cc] raises, and returns when
    it returns. *)
Lemma eval_sample_cases p :
  (exists e, raised_by p e /\
     forall a ia alphaG gm s, eval_sample p a ia alphaG gm s = Err e)
  \/ (forall a ia alphaG gm s, exists v, eval_sample p a ia alphaG gm s = Ok v).
Proof.
  destruct (A_given_Cc_cases p) as [(e & He & HA) | HA]; [left | right].
  - exists e. split; [done |]. intros a ia alphaG gm [[Ci Q] T]. unfold eval_sample.
    destruct gm as [g |]; [| apply HA]. destruct (fle g _); [apply HA |].
    rewrite (fixed_point_Err _ _ _ _ _ _ _ _ _ _ _ (HA _ _ _ _ _ _)). done.
  - intros a ia alphaG gm [[Ci Q] T]. unfold eval_sample.
    destruct gm as [g |]; [| apply HA]. destruct (fle g _); [apply HA |].
    destruct (fixed_point_from p a ia alphaG g Ci Q T (fun Cc => HA _ _ _ _ _ _) 40 0)
      as (Cc' & k & e & Hrun & _).
    cbn [Cc_seq] in Hrun. rewrite Hrun. cbn [mbind result_bind]. apply HA.
Qed.
(** A usable parameter set raises nothing: every call returns, whatever
    [theta], [gm] and the samples are.  The two hypotheses on the arithmetic
    say that the literal 1000 is not zero and that [max(theta, 0.0001)]
    never is. *)
Lemma params_ok_not_raised p e :
  fis_zero ‹1000› = false -> params_ok p -> ~ raised_by p e.
Proof.
  intros Hlit [Hkeys Hdiv] [[_ [Hz | (k & d & Hk & Hd & Hz)]] | (k & Hk & Hnone & _)].
  - congruence.
  - rewrite (Hdiv k d Hk Hd) in Hz. discriminate.
  - destruct (Hkeys k) as [v Hv]; [apply elem_of_app; by right | congruence].
Qed.

Lemma params_ok_returns x p :
  fis_zero ‹1000› = false ->
  (forall theta, fis_zero (pymax theta ‹0.0001›) = false) ->
  params_ok p -> exists out, evaluateFvCB x p = Ok out.
Proof.
  intros Hlit Hclamp Hok.
  destruct (proj1 Hok "theta") as [theta Hth]; [apply elem_of_app; left; repeat constructor |].
  destruct (proj1 Hok "alphaG") as [alphaG HaG]; [apply elem_of_app; left; repeat constructor |].
  rewrite (evaluateFvCB_intro x p theta (‹1› / pymax theta ‹0.0001›) alphaG Hth); [| | done].
  - apply for_each_Ok. intros s _.
    destruct (eval_sample_cases p) as [(e & He & _) | Hall]; [| apply Hall].
    by destruct (params_ok_not_raised p e Hlit Hok).
  - unfold pydiv. by rewrite Hclamp.
Qed.




End Control.
(** ** What a call that returns has found *)

Section Returns.
Context {F : Type} {ops : FloatOps F}.
Implicit Types (p : gmap string F) (x : list (sample F)).
Local Open Scope num_scope.

Lemma bind_Ok_inv {A B} (m : result A) (k : A -> result B) v :
  m ≫= k = Ok v -> exists w, m = Ok w /\ k w = Ok v.
Proof. destruct m as [w |]; cbn [mbind result_bind]; [eauto | done]. Qed.

Lemma getitem_Ok_inv p k v : getitem p k = Ok v -> p !! k = Some v.
Proof. unfold getitem. destruct (p !! k); [by intros [= ->] | done]. Qed.

Lemma Tresp_Ok_inv T dHa dHd Topt v :
  Tresp T dHa dHd Topt = Ok v -> fis_zero dHa = false /\ fis_zero Topt = false.
Proof.
  unfold Tresp, pydiv.
  destruct (fis_zero dHa); cbn [mbind result_bind]; [done |].
  destruct (fis_zero Topt); cbn [mbind result_bind]; done.
Qed.

Ltac ok_inv H :=
  repeat match type of H with
  | _ ≫= _ = Ok _ =>
      let w := fresh "w" in let Hw := fresh "Hw" in
      apply bind_Ok_inv in H as (w & Hw & H);
      first [ apply getitem_Ok_inv in Hw | apply Tresp_Ok_inv in Hw as [? ?] | idtac ]
  end.

Lemma Vcmax_Ok_inv p T v :
  Vcmax p T = Ok v -> divides_ok p "Vcmax_dHa" /\ divides_ok p "Vcmax_Topt".
Proof. unfold Vcmax, divides_ok. intros H. ok_inv H. repeat split; eauto. Qed.
Lemma Jmax_Ok_inv p T v :
  Jmax p T = Ok v -> divides_ok p "Jmax_dHa" /\ divides_ok p "Jmax_Topt".
Proof. unfold Jmax, divides_ok. intros H. ok_inv H. repeat split; eauto. Qed.
Lemma TPU_Ok_inv p T v :
  TPU p T = Ok v -> divides_ok p "TPU_dHa" /\ divides_ok p "TPU_Topt".
Proof. unfold TPU, divides_ok. intros H. ok_inv H. repeat split; eauto. Qed.
Lemma Kc_Ok_inv p T v : Kc p T = Ok v -> divides_ok p "Kc_dHa".
Proof. unfold Kc, divides_ok. intros H. ok_inv H. repeat split; eauto. Qed.
Lemma Ko_Ok_inv p T v : Ko p T = Ok v -> divides_ok p "Ko_dHa".
Proof. unfold Ko, divides_ok. intros H. ok_inv H. repeat split; eauto. Qed.
Lemma Gamma_Ok_inv p T v : Gamma p T = Ok v -> divides_ok p "GammaS_dHa".
Proof. unfold Gamma, divides_ok. intros H. ok_inv H. repeat split; eauto. Qed.
Lemma Rd_Ok_inv p T v : Rd p T = Ok v -> divides_ok p "Rd_dHa".
Proof. unfold Rd, divides_ok. intros H. ok_inv H. repeat split; eauto. Qed.

Lemma A_given_Cc_Ok_divisors p a ia alphaG Cc Q T v :
  A_given_Cc p a ia alphaG Cc Q T = Ok v ->
  forall k, k ∈ divisor_keys -> divides_ok p k.
Proof.
  intros HA.
  unfold A_given_Cc in HA.
  apply bind_Ok_inv in HA as (t & Ht & HA).
  apply bind_Ok_inv in HA as (v' & Hv & HA).
  apply bind_Ok_inv in HA as (j & Hj & _).
  unfold tpu in Ht. apply bind_Ok_inv in Ht as (? & [? ?]%TPU_Ok_inv & Ht).
  apply bind_Ok_inv in Ht as (? & ?%Gamma_Ok_inv & _).
  unfold vr in Hv. apply bind_Ok_inv in Hv as (? & [? ?]%Vcmax_Ok_inv & Hv).
  apply bind_Ok_inv in Hv as (? & _ & Hv).
  apply bind_Ok_inv in Hv as (? & Hkco & Hv).
  apply bind_Ok_inv in Hv as (? & ?%Rd_Ok_inv & _).
  unfold Kco in Hkco. apply bind_Ok_inv in Hkco as (? & ?%Kc_Ok_inv & Hkco).
  apply bind_Ok_inv in Hkco as (? & _ & Hkco).
  apply bind_Ok_inv in Hkco as (? & ?%Ko_Ok_inv & _).
  unfold jr in Hj. apply bind_Ok_inv in Hj as (? & HJ & _).
  unfold J in HJ. apply bind_Ok_inv in HJ as (? & _ & HJ).
  apply bind_Ok_inv in HJ as (? & [? ?]%Jmax_Ok_inv & _).
  intros k Hk. unfold divisor_keys in Hk.
  repeat (apply elem_of_cons in Hk as [-> | Hk]; [done |]).
  by apply elem_of_nil in Hk.
Qed.

Lemma required_keys_split k :
  k ∈ required_keys -> k = "theta" \/ k = "alphaG" \/ k ∈ lazy_keys.
Proof.
  unfold required_keys, eager_keys. rewrite elem_of_app, !elem_of_cons, elem_of_nil.
  tauto.
Qed.

(** A call that returns on a non-empty batch was given a usable parameter
    set: every required key is there and no [dHa] or [Topt] is zero. *)
Lemma returns_only_if_params_ok x p out :
  x <> [] -> evaluateFvCB x p = Ok out -> params_ok p.
Proof.
  intros Hx Hrun.
  destruct (evaluateFvCB_Ok_inv _ _ _ Hrun) as (theta & ia & alphaG & H1 & H2 & H3 & Hfor).
  destruct x as [| [[Ci Q] T] x]; [done |].
  destruct (for_each_Ok_inv _ _ _ Hfor) as [_ Hi].
  destruct (Hi 0%nat (Ci, Q, T) eq_refl) as (v & _ & Hs).
  assert (exists Cc w, A_given_Cc p (pymax theta ‹0.0001›) ia alphaG Cc Q T = Ok w)
    as (Cc & w & HA).
  { unfold eval_sample in Hs. destruct (p !! "gm") as [g |]; [| eauto].
    destruct (fle g _); [eauto |].
    apply bind_Ok_inv in Hs as ([[Cc' k] e] & _ & Hs). eauto. }
  split.
  - intros k Hk. destruct (required_keys_split k Hk) as [-> | [-> | Hl]];
      [by eexists | by eexists | by eapply A_given_Cc_Ok_keys].
  - intros k d Hk Hd.
    destruct (A_given_Cc_Ok_divisors _ _ _ _ _ _ _ _ HA k Hk) as (d' & Hd' & Hz).
    congruence.
Qed.

(** With every required key present and a divisor that is zero, every call
    on a non-empty batch raises [ZeroDivisionError]. *)
Lemma zero_divisor_Err x p k d :
  (forall theta, fis_zero (pymax theta ‹0.0001›) = false) ->
  (forall k', k' ∈ required_keys -> is_Some (p !! k')) ->
  k ∈ divisor_keys -> p !! k = Some d -> fis_zero d = true ->
  x <> [] -> evaluateFvCB x p = Err ZeroDivisionError.
Proof.
  intros Hclamp Hall Hk Hd Hz Hx.
  destruct (Hall "theta") as [theta Hth]; [apply elem_of_app; left; repeat constructor |].
  destruct (Hall "alphaG") as [alphaG HaG]; [apply elem_of_app; left; repeat constructor |].
  assert (pydiv ‹1› (pymax theta ‹0.0001›) = Ok (‹1› / pymax theta ‹0.0001›)) as Hdiv
    by (unfold pydiv; by rewrite Hclamp).
  destruct (evaluateFvCB x p) as [out | e] eqn:Hrun.
  - pose proof (returns_only_if_params_ok _ _ _ Hx Hrun) as [_ Hnz].
    rewrite (Hnz k d Hk Hd) in Hz. discriminate.
  - rewrite (evaluateFvCB_intro _ _ _ _ _ Hth Hdiv HaG) in Hrun.
    destruct (eval_sample_cases p) as [(e' & He' & Hs) | Hs].
    + rewrite (for_each_Err _ _ e') in Hrun by done. injection Hrun as <-.
      destruct He' as [[-> _] | (k' & Hk' & Hnone & _)]; [done |].
      destruct (Hall k') as [w Hw]; [apply elem_of_app; by right | congruence].
    + destruct (for_each_Ok (eval_sample p (pymax theta ‹0.0001›)
                  (‹1› / pymax theta ‹0.0001›) alphaG (p !! "gm")) x)
        as [out Hout]; [intros; apply Hs | congruence].
Qed.

End Returns.
(** ** Exact real arithmetic: the numerical properties *)

Local Open Scope R_scope.

Ltac real_ops :=
  cbv [fconst fadd fsub fmul fdiv fneg fabs fexp flog fsqrt flt fle fis_zero
       pow2 R_ops] in *.

(** An integer literal of the interface is the integer of [R]. *)
Lemma Q2R_int (z : Z) : Q2R (z # 1)%Q = IZR z.
Proof. unfold Q2R. cbn [Qnum Qden]. field. Qed.

Lemma pydiv_real (a b : R) : b <> 0 -> pydiv a b = Ok (a / b).
Proof.
  intros Hb. unfold pydiv. real_ops.
  destruct (Req_dec_T b 0); [contradiction | reflexivity].
Qed.

Lemma pymax_real (a b : R) : pymax a b = Rmax a b.
Proof.
  unfold pymax. real_ops. unfold Rmax.
  destruct (Rlt_dec a b), (Rle_dec a b); try reflexivity; lra.
Qed.

Lemma Tresp_real (T dHa dHd Topt : R) :
  dHa <> 0 -> Topt <> 0 ->
  Tresp T dHa dHd Topt =
    Ok (exp (dHa / 0.008314 * (1 / 298 - 1 / T))
        * (1 + exp (dHd / 0.008314 * (1 / Topt - 1 / 298) - ln (Rmax (dHd / dHa) 1.0001 - 1)))
        / (1 + exp (dHd / 0.008314 * (1 / Topt - 1 / T) - ln (Rmax (dHd / dHa) 1.0001 - 1)))).
Proof.
  intros Ha Ht. unfold Tresp.
  rewrite (pydiv_real dHd dHa Ha). cbn [mbind result_bind].
  rewrite (pydiv_real _ Topt Ht). cbn [mbind result_bind].
  rewrite pymax_real. unfold R_gas. real_ops.
  rewrite !Q2R_int. reflexivity.
Qed.

(** *** The smooth minimum *)

Lemma hmin_real (f1 f2 : R) :
  hmin f1 f2 = (f1 + f2 - sqrt (hdisc f1 f2)) / (2 * 0.999).
Proof. unfold hmin, hdisc. real_ops. rewrite !Q2R_int. reflexivity. Qed.

Lemma hdisc_nonneg (f1 f2 : R) : 0 <= hdisc f1 f2.
Proof.
  unfold hdisc.
  replace ((f1 + f2) * (f1 + f2) - 4 * 0.999 * f1 * f2)
    with (0.999 * ((f1 - f2) * (f1 - f2)) + 0.001 * ((f1 + f2) * (f1 + f2))) by lra.
  pose proof (Rle_0_sqr (f1 - f2)) as H1. pose proof (Rle_0_sqr (f1 + f2)) as H2.
  unfold Rsqr in H1, H2. lra.
Qed.

Lemma hdisc_sym (f1 f2 : R) : hdisc f1 f2 = hdisc f2 f1.
Proof. unfold hdisc. ring. Qed.

Lemma sqrt_hdisc (f1 f2 : R) :
  0 <= sqrt (hdisc f1 f2) /\ sqrt (hdisc f1 f2) * sqrt (hdisc f1 f2) = hdisc f1 f2.
Proof.
  split; [apply sqrt_pos | apply sqrt_sqrt, hdisc_nonneg].
Qed.

Lemma hmin_sym (f1 f2 : R) : hmin f1 f2 = hmin f2 f1.
Proof. rewrite !hmin_real, (hdisc_sym f1 f2). lra. Qed.

Lemma hmin_le_l (f1 f2 : R) : hmin f1 f2 <= f1.
Proof.
  rewrite hmin_real.
  destruct (sqrt_hdisc f1 f2) as [Hr Hrr].
  set (r := sqrt (hdisc f1 f2)) in *. unfold hdisc in Hrr.
  assert (f1 + f2 - r <= 2 * 0.999 * f1) by nra.
  lra.
Qed.

Lemma hmin_le_r (f1 f2 : R) : hmin f1 f2 <= f2.
Proof. rewrite hmin_sym. apply hmin_le_l. Qed.


(** *** The temperature response at the reference temperature *)

Lemma Tresp_298 (dHa dHd Topt : R) :
  dHa <> 0 -> Topt <> 0 -> Tresp 298 dHa dHd Topt = Ok 1.
Proof.
  intros Ha Ht. rewrite Tresp_real by assumption. f_equal.
  replace (1 / 298 - 1 / 298) with 0 by lra.
  rewrite Rmult_0_r, exp_0.
  set (e := exp _). assert (0 < e) by apply exp_pos.
  field. lra.
Qed.


(** *** Comparisons and zero tests over the reals *)

Lemma flt_real (x y : R) : flt x y = true <-> x < y.
Proof. real_ops. destruct (Rlt_dec x y); split; (done || lra). Qed.


Lemma fle_real_false (x y : R) : fle x y = false <-> y < x.
Proof. real_ops. destruct (Rle_dec x y); split; (done || lra). Qed.

Lemma fis_zero_real (x : R) : fis_zero x = false <-> x <> 0.
Proof. real_ops. destruct (Req_dec_T x 0); split; (done || congruence). Qed.

(** *** More on the smooth minimum *)

Lemma sqrt_small_bounds : 0.031622 < sqrt (1 - 0.999) < 0.031623.
Proof.
  assert (0 <= 1 - 0.999) as H0 by lra.
  pose proof (sqrt_pos (1 - 0.999)) as Hp.
  pose proof (sqrt_sqrt _ H0) as Hs.
  set (r := sqrt (1 - 0.999)) in *. split; nra.
Qed.

Lemma hmin_factor_bounds : 0.96934 < hmin_factor < 0.96935.
Proof.
  unfold hmin_factor. destruct sqrt_small_bounds as [H1 H2].
  set (r := sqrt (1 - 0.999)) in *. split.
  - lra.
  - lra.
Qed.

Lemma hmin_diag (x : R) : 0 <= x -> hmin x x = x * hmin_factor.
Proof.
  intros Hx. rewrite hmin_real. unfold hmin_factor.
  replace (hdisc x x) with ((2 * x) * (2 * x) * (1 - 0.999)) by (unfold hdisc; ring).
  rewrite sqrt_mult by nra. rewrite sqrt_square by lra. field; lra.
Qed.

Lemma hmin_zero_r (v : R) : v <= 0 -> hmin v 0 = v / 0.999.
Proof.
  intros Hv. rewrite hmin_real.
  replace (hdisc v 0) with ((- v) * (- v)) by (unfold hdisc; ring).
  rewrite sqrt_square by lra. field; lra.
Qed.

Lemma hmin_zero_l (v : R) : v <= 0 -> hmin 0 v = v / 0.999.
Proof. intros Hv. rewrite hmin_sym. by apply hmin_zero_r. Qed.

Lemma hmin_zero_pos (v : R) : 0 <= v -> hmin v 0 = 0.
Proof.
  intros Hv. rewrite hmin_real.
  replace (hdisc v 0) with (v * v) by (unfold hdisc; ring).
  rewrite sqrt_square by lra. field; lra.
Qed.

(** [hmin] grows with its second argument. *)
Lemma hmin_mono_r (f1 f2 f2' : R) : f2 <= f2' -> hmin f1 f2 <= hmin f1 f2'.
Proof.
  intros Hle. pose proof (hmin_le_l f1 f2) as Hl. rewrite !hmin_real in *.
  destruct (sqrt_hdisc f1 f2) as [Hr Hrr]. destruct (sqrt_hdisc f1 f2') as [Hr' Hrr'].
  set (r := sqrt (hdisc f1 f2)) in *. set (r' := sqrt (hdisc f1 f2')) in *.
  unfold hdisc in Hrr, Hrr'.
  assert (f1 + f2 - r <= 2 * 0.999 * f1) as Hl' by lra.
  assert (r' <= r + (f2' - f2)) as Hgoal.
  { assert (r' * r' <= (r + (f2' - f2)) * (r + (f2' - f2))) as Hsq by nra.
    nra. }
  lra.
Qed.

(** With all three rates equal to 1 the result is below 0.96. *)
Lemma hmin_three_ones : hmin 1 (hmin 1 1) < 0.96.
Proof.
  rewrite (hmin_diag 1) by lra. rewrite Rmult_1_l.
  destruct hmin_factor_bounds as [Hc1 Hc2]. set (c := hmin_factor) in *.
  rewrite hmin_real. destruct (sqrt_hdisc 1 c) as [Hr Hrr].
  set (r := sqrt (hdisc 1 c)) in *. unfold hdisc in Hrr.
  assert (0.06 < r) by nra.
  lra.
Qed.

(** [hmin] is homogeneous: a common positive factor of the rates is a
    factor of the result. *)
Lemma hmin_scale (c f1 f2 : R) : 0 <= c -> hmin (c * f1) (c * f2) = c * hmin f1 f2.
Proof.
  intros Hc. rewrite !hmin_real.
  replace (hdisc (c * f1) (c * f2)) with (c * c * hdisc f1 f2) by (unfold hdisc; ring).
  rewrite sqrt_mult by (first [nra | apply hdisc_nonneg]).
  rewrite sqrt_square by lra. unfold Rdiv. ring.
Qed.

(** With all three rates equal to [x > 0] the result is below [0.96 x]. *)
Lemma hmin_three_equal (x : R) : 0 < x -> hmin x (hmin x x) < 0.96 * x.
Proof.
  intros Hx. pose proof hmin_three_ones as H1.
  replace (hmin x (hmin x x)) with (x * hmin 1 (hmin 1 1)); [nra |].
  rewrite <- hmin_scale by lra. f_equal; [lra |].
  rewrite <- hmin_scale by lra. f_equal; lra.
Qed.
(** ** Binary64: what rounding and overflow do *)

Section Binary64.
Variables exp64 log64 : float -> float.
Local Open Scope num_scope.





(** [hmin(1, 1) = 0.9693465699682845],
    [hmin(1, hmin(1, 1)) = 0.950921832789418] and
    [hmin(1e8, hmin(1, 1)) = 0.9693465716726668 > hmin(1, 1)] *)
Lemma b64_hmin_ones :
  let ops := B64_ops exp64 log64 in
  flt (hmin ‹1› ‹1›) ‹0.96935› = true
  /\ flt (hmin ‹1› (hmin ‹1› ‹1›)) ‹0.96› = true
  /\ flt (hmin ‹1› ‹1›) (hmin ‹100000000› (hmin ‹1› ‹1›)) = true.
Proof. repeat split; vm_compute; reflexivity. Qed.



End Binary64.


(** ** The example parameter sets *)

Ltac assoc k l :=
  match l with
  | (k, ?v) :: _ => v
  | _ :: ?l' => assoc k l'
  end.

(** Rewrites the lookups in a parameter set given by its list of items. *)
Ltac eval_lookups p :=
  let d := eval unfold p in p in
  match d with
  | list_to_map ?l =>
      repeat match goal with
      | |- context [p !! ?k] =>
          let v := assoc k l in
          replace (p !! k) with (Some v) by reflexivity
      end
  end.

Ltac nonzero := rewrite ?Q2R_int; lra.
Ltac ok_eq := apply (f_equal (@Ok R)).

Ltac rate_at_298 p :=
  unfold getitem; eval_lookups p; cbn [mbind result_bind];
  rewrite Tresp_298 by nonzero; cbn [mbind result_bind];
  real_ops; ok_eq; lra.

Lemma Vcmax_dark : Vcmax p_dark 298 = Ok 0.998001.
Proof. unfold Vcmax. rate_at_298 p_dark. Qed.
Lemma Jmax_dark : Jmax p_dark 298 = Ok 0.
Proof. unfold Jmax. rate_at_298 p_dark. Qed.
Lemma TPU_dark : TPU p_dark 298 = Ok 0.
Proof. unfold TPU. rate_at_298 p_dark. Qed.
Lemma Kc_dark : Kc p_dark 298 = Ok 180.
Proof. unfold Kc. rate_at_298 p_dark. Qed.
Lemma Ko_dark : Ko p_dark 298 = Ok 165.
Proof. unfold Ko. rate_at_298 p_dark. Qed.
Lemma Gamma_dark : Gamma p_dark 298 = Ok 40.
Proof. unfold Gamma. rate_at_298 p_dark. Qed.
Lemma Rd_dark : Rd p_dark 298 = Ok 0.
Proof. unfold Rd. rate_at_298 p_dark. Qed.

Lemma Kco_dark : Kco p_dark 298 = Ok 180.
Proof.
  unfold Kco. rewrite Kc_dark, Ko_dark. unfold getitem. eval_lookups p_dark.
  cbn [mbind result_bind]. real_ops. rewrite ?Q2R_int. ok_eq. lra.
Qed.

Lemma J_dark (a ia Q : R) : 0 <= Q -> J p_dark a ia Q 298 = Ok 0.
Proof.
  intros HQ. unfold J. rewrite Jmax_dark. unfold getitem. eval_lookups p_dark.
  cbn [mbind result_bind]. real_ops. rewrite Q2R_int. ok_eq.
  replace (- (0.3 * Q + 0) * - (0.3 * Q + 0) - 4 * a * (0.3 * Q * 0))
    with ((0.3 * Q) * (0.3 * Q)) by ring.
  rewrite sqrt_square by lra. ring.
Qed.

Lemma vr_dark (Cc : R) :
  vr p_dark Cc 298 = Ok (0.998001 * A_dark Cc).
Proof.
  unfold vr. rewrite Vcmax_dark, Gamma_dark, Kco_dark, Rd_dark.
  cbn [mbind result_bind]. real_ops. unfold A_dark. ok_eq. lra.
Qed.

Lemma jr_dark (a ia Cc Q : R) : 0 <= Q -> jr p_dark a ia Cc Q 298 = Ok 0.
Proof.
  intros HQ. unfold jr. rewrite J_dark, Gamma_dark, Rd_dark by done.
  cbn [mbind result_bind]. real_ops. ok_eq. ring.
Qed.

Lemma tpu_dark (alphaG Cc : R) : tpu p_dark alphaG Cc 298 = Ok 0.
Proof.
  unfold tpu. rewrite TPU_dark, Gamma_dark.
  cbn [mbind result_bind]. real_ops. ok_eq. ring.
Qed.

Lemma A_dark_nonpos (Cc : R) : -180 < Cc <= 40 -> A_dark Cc <= 0.
Proof.
  intros [H1 H2]. unfold A_dark, Rdiv.
  assert (0 < / (Cc + 180)) by (apply Rinv_0_lt_compat; lra). nra.
Qed.

(** Below the compensation point the leaf loses [A_dark Cc]. *)
Lemma A_given_Cc_dark (a ia alphaG Cc Q : R) :
  0 <= Q -> -180 < Cc <= 40 ->
  A_given_Cc p_dark a ia alphaG Cc Q 298 = Ok (A_dark Cc).
Proof.
  intros HQ HCc. unfold A_given_Cc.
  rewrite tpu_dark, vr_dark, jr_dark by done. cbn [mbind result_bind]. ok_eq.
  pose proof (A_dark_nonpos Cc HCc) as Hneg.
  rewrite hmin_zero_r by lra. rewrite hmin_zero_l by lra. lra.
Qed.

(** Above it nothing is assimilated. *)
Lemma A_given_Cc_dark_zero (a ia alphaG Cc Q : R) :
  0 <= Q -> 40 <= Cc ->
  A_given_Cc p_dark a ia alphaG Cc Q 298 = Ok 0.
Proof.
  intros HQ HCc. unfold A_given_Cc.
  rewrite tpu_dark, vr_dark, jr_dark by done. cbn [mbind result_bind]. ok_eq.
  assert (0 <= A_dark Cc) as Hpos.
  { unfold A_dark, Rdiv. assert (0 < / (Cc + 180)) by (apply Rinv_0_lt_compat; lra). nra. }
  rewrite hmin_zero_pos by lra. rewrite hmin_zero_pos by lra. reflexivity.
Qed.

(** *** The fixed-point loop on the dark leaf *)

Lemma fixed_point_S {F : Type} {ops : FloatOps F} (p : gmap string F)
    (a ia alphaG : F) (n : nat) (gm Ci_i Q_i T_i Cc : F) :
  fixed_point p a ia alphaG (S n) gm Ci_i Q_i T_i Cc
  = (A_i ← A_given_Cc p a ia alphaG Cc Q_i T_i;
     let Cc_new := fsub Ci_i (fdiv A_i gm) in
     if flt (fabs (fsub Cc_new Cc)) (fconst 0.000001)
     then Ok (Cc, 1%nat, Converged)
     else '(Cc', k, e) ← fixed_point p a ia alphaG n gm Ci_i Q_i T_i Cc_new;
          Ok (Cc', S k, e)).
Proof. reflexivity. Qed.

Lemma test_real (x y : R) :
  flt (fabs (fsub x y)) (fconst 0.000001) = true <-> Rabs (x - y) < 0.000001.
Proof. rewrite flt_real. real_ops. reflexivity. Qed.

Lemma test_passes (x y : R) :
  -0.000001 < x - y < 0.000001 -> flt (fabs (fsub x y)) (fconst 0.000001) = true.
Proof. intros H. apply test_real. apply Rabs_def1; lra. Qed.

Lemma test_fails (x y : R) :
  0.000001 <= x - y -> flt (fabs (fsub x y)) (fconst 0.000001) = false.
Proof.
  intros H. destruct (flt _ _) eqn:E; [| done].
  apply test_real in E. rewrite Rabs_right in E by lra. lra.
Qed.

Lemma start_dark : fsub 30 (fdiv (fconst 20) (fconst 0.2)) = -70.
Proof. real_ops. rewrite Q2R_int. lra. Qed.

Lemma A_dark_start : A_dark (-70) = -1.
Proof. unfold A_dark. lra. Qed.

Lemma A_dark_Cc1 : -0.05 < A_dark Cc1_dark < -0.04.
Proof. unfold A_dark, Cc1_dark. lra. Qed.

Lemma Cc2_dark_range : 30 < Cc2_dark < 30.00000001.
Proof. unfold Cc2_dark. pose proof A_dark_Cc1. lra. Qed.

Lemma step1_dark : fsub 30 (fdiv (A_dark (-70)) 10000000) = Cc1_dark.
Proof. rewrite A_dark_start. real_ops. unfold Cc1_dark. lra. Qed.

Lemma step2_dark : fsub 30 (fdiv (A_dark Cc1_dark) 10000000) = Cc2_dark.
Proof. reflexivity. Qed.

Lemma fixed_point_dark (a ia alphaG : R) :
  fixed_point p_dark a ia alphaG 40 10000000 30 0 298
    (fsub 30 (fdiv (fconst 20) (fconst 0.2)))
  = Ok (Cc1_dark, 2%nat, Converged).
Proof.
  rewrite start_dark, fixed_point_S.
  rewrite A_given_Cc_dark by lra. cbn [mbind result_bind]. cbv zeta.
  rewrite step1_dark. rewrite test_fails by (unfold Cc1_dark; lra).
  rewrite fixed_point_S.
  rewrite A_given_Cc_dark by (unfold Cc1_dark; lra). cbn [mbind result_bind]. cbv zeta.
  rewrite step2_dark.
  rewrite test_passes by (pose proof Cc2_dark_range; unfold Cc1_dark; lra).
  reflexivity.
Qed.

Lemma eval_sample_dark_gm (a ia alphaG : R) :
  eval_sample p_dark a ia alphaG (Some 10000000) (30, 0, 298) = Ok (A_dark Cc1_dark).
Proof.
  unfold eval_sample.
  replace (fle 10000000 (fconst 0)) with false
    by (symmetry; apply fle_real_false; real_ops; rewrite Q2R_int; lra).
  rewrite fixed_point_dark. cbn [mbind result_bind].
  apply A_given_Cc_dark; unfold Cc1_dark; lra.
Qed.

(** [A_dark] is one-to-one where it is defined. *)
Lemma A_dark_inj (x y : R) : -180 < x -> -180 < y -> A_dark x = A_dark y -> x = y.
Proof.
  unfold A_dark. intros Hx Hy H.
  assert ((x - 40) * (y + 180) = (y - 40) * (x + 180)) as Hc.
  { apply (Rmult_eq_compat_r ((x + 180) * (y + 180))) in H.
    field_simplify in H; lra. }
  lra.
Qed.

(** *** The start of the function *)

Lemma clamp_theta (theta : R) : 0.0001 <= pymax theta (fconst 0.0001).
Proof.
  rewrite pymax_real. real_ops. apply Rmax_r.
Qed.

Lemma clamp_theta_div (theta : R) :
  pydiv (fconst 1) (pymax theta (fconst 0.0001))
  = Ok (fdiv (fconst 1) (pymax theta (fconst 0.0001))).
Proof. apply pydiv_real. pose proof (clamp_theta theta). lra. Qed.

Lemma evaluateFvCB_real (x : list (sample R)) (p : gmap string R) theta alphaG :
  p !! "theta" = Some theta -> p !! "alphaG" = Some alphaG ->
  evaluateFvCB x p
  = for_each (eval_sample p (pymax theta (fconst 0.0001))
                (fdiv (fconst 1) (pymax theta (fconst 0.0001))) alphaG (p !! "gm")) x.
Proof.
  intros H1 H2. by apply evaluateFvCB_intro; [| apply clamp_theta_div |].
Qed.

Lemma real_literal_1000 : fis_zero (fconst 1000 : R) = false.
Proof. apply fis_zero_real. nonzero. Qed.

Lemma real_clamp_nonzero (theta : R) : fis_zero (pymax theta (fconst 0.0001)) = false.
Proof. apply fis_zero_real. pose proof (clamp_theta theta). lra. Qed.

Ltac each_key H tac :=
  repeat (apply elem_of_cons in H as [-> | H]; [tac |]); by apply elem_of_nil in H.

Lemma params_ok_dark : params_ok p_dark.
Proof.
  split.
  - intros k Hk. unfold required_keys, eager_keys, lazy_keys in Hk. cbn [app] in Hk.
    each_key Hk ltac:(eval_lookups p_dark; by eexists).
  - intros k d Hk Hd. apply fis_zero_real. unfold divisor_keys in Hk.
    each_key Hk ltac:(revert Hd; eval_lookups p_dark; intros [= <-]; lra).
Qed.

Lemma params_ok_std : params_ok p_std.
Proof.
  split.
  - intros k Hk. unfold required_keys, eager_keys, lazy_keys in Hk. cbn [app] in Hk.
    each_key Hk ltac:(eval_lookups p_std; by eexists).
  - intros k d Hk Hd. apply fis_zero_real. unfold divisor_keys in Hk.
    each_key Hk ltac:(revert Hd; eval_lookups p_std; intros [= <-]; lra).
Qed.

(** *** A run that reaches the cap *)

Section Slow.
Variables a ia alphaG : R.

Lemma A_value_dark (Cc : R) :
  -180 < Cc <= 40 -> A_value p_dark a ia alphaG 0 298 Cc = A_dark Cc.
Proof. intros H. unfold A_value. by rewrite A_given_Cc_dark by lra. Qed.

Lemma A_value_dark_zero (Cc : R) :
  40 <= Cc -> A_value p_dark a ia alphaG 0 298 Cc = 0.
Proof. intros H. unfold A_value. by rewrite A_given_Cc_dark_zero by lra. Qed.

Lemma Cc_far_value : 47649 < Cc_far < 47650.
Proof. unfold Cc_far, A_dark. lra. Qed.

Lemma Cc_seq_S (g : R) (k : nat) :
  Cc_seq p_dark a ia alphaG g 30 0 298 (S k)
  = 30 - A_value p_dark a ia alphaG 0 298 (Cc_seq p_dark a ia alphaG g 30 0 298 k) / g.
Proof. reflexivity. Qed.

Lemma Cc_seq_slow_0 : Cc_seq p_dark a ia alphaG 0.000001 30 0 298 0 = -70.
Proof. apply start_dark. Qed.

Lemma Cc_seq_slow_1 : Cc_seq p_dark a ia alphaG 0.000001 30 0 298 1 = 1000030.
Proof.
  rewrite Cc_seq_S, Cc_seq_slow_0, A_value_dark by lra. rewrite A_dark_start. lra.
Qed.

Lemma Cc_seq_slow (n : nat) :
  Cc_seq p_dark a ia alphaG 0.000001 30 0 298 (2 * n + 2) = 30
  /\ Cc_seq p_dark a ia alphaG 0.000001 30 0 298 (2 * n + 3) = Cc_far.
Proof.
  assert (forall k, Cc_seq p_dark a ia alphaG 0.000001 30 0 298 k = 30 ->
                    Cc_seq p_dark a ia alphaG 0.000001 30 0 298 (S k) = Cc_far) as Hodd.
  { intros k Hk. rewrite Cc_seq_S, Hk, A_value_dark by lra. reflexivity. }
  assert (forall k, 40 <= Cc_seq p_dark a ia alphaG 0.000001 30 0 298 k ->
                    Cc_seq p_dark a ia alphaG 0.000001 30 0 298 (S k) = 30) as Heven.
  { intros k Hk. rewrite Cc_seq_S, A_value_dark_zero by done. lra. }
  pose proof Cc_far_value as Hfar.
  induction n as [| n [IH1 IH2]].
  - assert (Cc_seq p_dark a ia alphaG 0.000001 30 0 298 2 = 30) as H2
      by (apply Heven; rewrite Cc_seq_slow_1; lra).
    split; [exact H2 | by apply Hodd].
  - replace (2 * S n + 2)%nat with (S (2 * n + 3)) by lia.
    replace (2 * S n + 3)%nat with (S (S (2 * n + 3))) by lia.
    assert (Cc_seq p_dark a ia alphaG 0.000001 30 0 298 (S (2 * n + 3)) = 30) as H2
      by (apply Heven; rewrite IH2; lra).
    split; [exact H2 | by apply Hodd].
Qed.

Lemma test_fails_neg (x y : R) :
  0.000001 <= y - x -> flt (fabs (fsub x y)) (fconst 0.000001) = false.
Proof.
  intros H. destruct (flt _ _) eqn:E; [| done].
  apply test_real in E. rewrite Rabs_left in E by lra. lra.
Qed.

(** No convergence test of this run passes. *)
Lemma never_converged (i : nat) :
  converged_at p_dark a ia alphaG 0.000001 30 0 298 i = false.
Proof.
  pose proof Cc_far_value as Hfar. unfold converged_at.
  destruct i as [| [| j]].
  - rewrite Cc_seq_slow_1, Cc_seq_slow_0. apply test_fails. lra.
  - destruct (Cc_seq_slow 0) as [H2 _]. change (2 * 0 + 2)%nat with 2%nat in H2.
    rewrite H2, Cc_seq_slow_1. apply test_fails_neg. lra.
  - destruct (Nat.Even_or_Odd j) as [[n ->] | [n ->]].
    + replace (S (S (S (2 * n)))) with (2 * n + 3)%nat by lia.
      replace (S (S (2 * n))) with (2 * n + 2)%nat by lia.
      rewrite (proj1 (Cc_seq_slow n)), (proj2 (Cc_seq_slow n)). apply test_fails. lra.
    + replace (S (S (S (2 * n + 1)))) with (2 * (S n) + 2)%nat by lia.
      replace (S (S (2 * n + 1))) with (2 * n + 3)%nat by lia.
      rewrite (proj1 (Cc_seq_slow (S n))), (proj2 (Cc_seq_slow n)).
      apply test_fails_neg. lra.
Qed.
End Slow.

(** ** The specification: control flow *)

Section Claims.
Context {F : Type} {ops : FloatOps F}.
Implicit Types (p : gmap string F) (x : list (sample F)).
Local Open Scope num_scope.



Lemma gm_not_lazy : "gm" ∉ lazy_keys.
Proof.
  unfold lazy_keys. intros H.
  repeat (apply elem_of_cons in H as [H | H]; [discriminate H |]).
  by apply elem_of_nil in H.
Qed.




(** C5.  With [gm > 0] the fixed-point loop makes at most 40 rounds and
    the sample is evaluated.  Either the parameter set makes the sample
    raise (an absent key, a zero divisor); or the loop returns a [Cc]
    after [k <= 40] rounds and the sample gets [A(Cc)], without failure.
    The iterates decide which: if none of the 40 convergence tests passes,
    the loop makes all 40 rounds and goes on with [Cc_40], the last value
    computed; if the first test to pass is the one of round [m + 1], the
    loop makes [m + 1] rounds. *)
Theorem fixed_point_capped p a ia alphaG g Ci Q T :
  fle g ‹0› = false ->
  (exists e, raised_by p e
             /\ eval_sample p a ia alphaG (Some g) (Ci, Q, T) = Err e)
  \/ (exists Cc' k e v,
        fixed_point p a ia alphaG 40 g Ci Q T (Ci - ‹20› / ‹0.2›) = Ok (Cc', k, e)
        /\ (k <= 40)%nat
        /\ eval_sample p a ia alphaG (Some g) (Ci, Q, T) = Ok v
        /\ A_given_Cc p a ia alphaG Cc' Q T = Ok v
        /\ ((forall i, (i < 40)%nat ->
               converged_at p a ia alphaG g Ci Q T i = false) ->
            e = CappedOut /\ k = 40%nat
            /\ Cc' = Cc_seq p a ia alphaG g Ci Q T 40)
        /\ (forall m, (m < 40)%nat ->
              converged_at p a ia alphaG g Ci Q T m = true ->
              (forall i, (i < m)%nat ->
                 converged_at p a ia alphaG g Ci Q T i = false) ->
              e = Converged /\ k = S m
              /\ Cc' = Cc_seq p a ia alphaG g Ci Q T m)).
Proof.
  intros Hg. destruct (A_given_Cc_cases p) as [(e & He & HA) | HA]; [left | right].
  - exists e. split; [done |]. unfold eval_sample. rewrite Hg.
    by rewrite (fixed_point_Err _ _ _ _ _ _ _ _ _ _ _ (HA _ _ _ _ _ _)).
  - destruct (fixed_point_from p a ia alphaG g Ci Q T (fun Cc => HA _ _ _ _ _ _) 40 0)
      as (Cc' & k & e & Hrun & Hpost).
    cbn [Cc_seq] in Hrun. destruct (HA a ia alphaG Cc' Q T) as [v Hv].
    exists Cc', k, e, v. split; [done |].
    split; [by destruct (fixed_point_rounds _ _ _ _ _ _ _ _ _ _ _ _ _ Hrun) |].
    split; [unfold eval_sample; rewrite Hg, Hrun; done |].
    split; [done |]. split.
    + intros Hnone. destruct e; cbn in Hpost.
      * destruct Hpost as (m & _ & Hm & _ & Hconv & _).
        rewrite (Hnone m Hm) in Hconv. discriminate.
      * by destruct Hpost as (-> & -> & _).
    + intros m Hm Hconv Hbefore. destruct e; cbn in Hpost.
      * destruct Hpost as (m' & -> & Hm' & -> & Hconv' & Hbefore').
        assert (m' = m) as ->; [| done].
        destruct (Nat.lt_trichotomy m' m) as [Hlt | [Heq | Hgt]]; [| done |].
        -- rewrite (Hbefore m' Hlt) in Hconv'. discriminate.
        -- rewrite (Hbefore' m Hgt) in Hconv. discriminate.
      * destruct Hpost as (_ & _ & Hnone). rewrite (Hnone m Hm) in Hconv. discriminate.
Qed.

(** C1, as the code has it.  With [gm > 0], the value stored for a sample
    is [A] evaluated at the [Cc] the loop leaves behind.  When the loop is
    left because the step from [Cc_m] to [Cc_(m+1)] passed the test, that
    [Cc] is [Cc_m], the iterate before the converged one, which is
    dropped; when the cap is reached it is [Cc_40], the last iterate
    computed. *)
Theorem reported_value_at_exit p a ia alphaG g Ci Q T v :
  fle g ‹0› = false ->
  eval_sample p a ia alphaG (Some g) (Ci, Q, T) = Ok v ->
  exists Cc' k e,
    fixed_point p a ia alphaG 40 g Ci Q T (Ci - ‹20› / ‹0.2›) = Ok (Cc', k, e)
    /\ A_given_Cc p a ia alphaG Cc' Q T = Ok v
    /\ match e with
       | Converged =>
           exists m, k = S m /\ (m < 40)%nat
             /\ Cc' = Cc_seq p a ia alphaG g Ci Q T m
             /\ converged_at p a ia alphaG g Ci Q T m = true
             /\ forall i, (i < m)%nat -> converged_at p a ia alphaG g Ci Q T i = false
       | CappedOut =>
           k = 40%nat /\ Cc' = Cc_seq p a ia alphaG g Ci Q T 40
           /\ forall i, (i < 40)%nat -> converged_at p a ia alphaG g Ci Q T i = false
       end.
Proof.
  intros Hg Hv. destruct (A_given_Cc_cases p) as [(e & He & HA) | HA].
  - unfold eval_sample in Hv. rewrite Hg in Hv.
    by rewrite (fixed_point_Err _ _ _ _ _ _ _ _ _ _ _ (HA _ _ _ _ _ _)) in Hv.
  - destruct (fixed_point_from p a ia alphaG g Ci Q T (fun Cc => HA _ _ _ _ _ _) 40 0)
      as (Cc' & k & e & Hrun & Hpost).
    cbn [Cc_seq] in Hrun. exists Cc', k, e. split; [done |].
    unfold eval_sample in Hv. rewrite Hg, Hrun in Hv. split; [exact Hv |].
    destruct e; exact Hpost.
Qed.

Lemma evaluateFvCB_cases p :
  (exists e, forall x, x <> [] -> evaluateFvCB x p = Err e)
  \/ (forall x, exists out, evaluateFvCB x p = Ok out).
Proof.
  unfold evaluateFvCB.
  destruct (getitem p "theta") as [theta |]; cbn [mbind result_bind];
    [| left; by eexists].
  destruct (pydiv _ _) as [ia |]; cbn [mbind result_bind]; [| left; by eexists].
  destruct (getitem p "alphaG") as [alphaG |]; cbn [mbind result_bind];
    [| left; by eexists].
  destruct (eval_sample_cases p) as [(e & _ & He) | Hok]; [left | right].
  - exists e. intros x Hx. by apply for_each_Err.
  - intros x. apply for_each_Ok. intros s _. apply Hok.
Qed.

(** C8.  A batch of n samples gives n outputs; output i is what the
    one-sample batch of sample i gives, so it depends on that sample and
    on the parameter set only; selecting rows of the input in any order
    selects the same rows of the output; and whether the call completes
    does not depend on the values in the samples, for any arithmetic, with
    NaN and infinities or without. *)
Theorem batch_independence x p :
  (forall x', (x' = [] <-> x = []) ->
     status (evaluateFvCB x' p) = status (evaluateFvCB x p))
  /\ forall out, evaluateFvCB x p = Ok out ->
       length out = length x
       /\ (forall i s, x !! i = Some s ->
             exists v, out !! i = Some v /\ evaluateFvCB [s] p = Ok [v])
       /\ (forall idx, Forall (fun i => (i < length x)%nat) idx ->
             evaluateFvCB (rows idx x) p = Ok (rows idx out)).
Proof.
  split.
  - intros x' Hxx. destruct (evaluateFvCB_cases p) as [(e & He) | Hok].
    + destruct x as [| s x].
      * by rewrite (proj2 Hxx eq_refl).
      * rewrite (He (s :: x)) by done. rewrite (He x'); [done |].
        intros ->. by destruct Hxx as [Hxx _]; specialize (Hxx eq_refl).
    + destruct (Hok x) as [out ->]. by destruct (Hok x') as [out' ->].
  - intros out Hrun.
    destruct (evaluateFvCB_Ok_inv _ _ _ Hrun) as (theta & ia & alphaG & H1 & H2 & H3 & Hfor).
    destruct (for_each_Ok_inv _ _ _ Hfor) as [Hlen Hi].
    split; [done |]. split.
    + intros i s Hs. destruct (Hi i s Hs) as (v & Hv & Hf). exists v.
      split; [done |]. rewrite (evaluateFvCB_intro _ _ _ _ _ H1 H2 H3).
      cbn [for_each]. by rewrite Hf.
    + intros idx Hidx. rewrite (evaluateFvCB_intro _ _ _ _ _ H1 H2 H3).
      by apply for_each_rows.
Qed.


(** C7, as the code has it.  [theta] and [alphaG] are read when the
    function starts: without one of them every call fails with its
    [KeyError], on the empty batch too.  The other required keys are read
    while a sample is evaluated: without one of them every call on a
    non-empty batch fails, with the [KeyError] of an absent required key,
    or with [ZeroDivisionError] when a [dHa] or [Topt] that is zero is met
    first; so with no zero divisor it is a [KeyError].  The call on the
    empty batch returns the empty output once [theta] and [alphaG] are
    there.  The two hypotheses on the arithmetic say that the literal 1000
    is not zero and that [max(theta, 0.0001)] never is; both hold for the
    reals and for binary64. *)
Theorem missing_key_failure p k :
  fis_zero ‹1000› = false ->
  (forall theta, fis_zero (pymax theta ‹0.0001›) = false) ->
  k ∈ required_keys -> p !! k = None ->
  (k ∈ eager_keys ->
     forall x, exists k', k' ∈ eager_keys /\ p !! k' = None
                          /\ evaluateFvCB x p = Err (KeyError k'))
  /\ (forall x, x <> [] ->
        exists e, evaluateFvCB x p = Err e
          /\ ((exists k', k' ∈ required_keys /\ p !! k' = None /\ e = KeyError k')
              \/ (e = ZeroDivisionError
                  /\ exists k' d, k' ∈ divisor_keys /\ p !! k' = Some d
                                   /\ fis_zero d = true)))
  /\ ((forall k' d, k' ∈ divisor_keys -> p !! k' = Some d -> fis_zero d = false) ->
        forall x, x <> [] ->
          exists k', k' ∈ required_keys /\ p !! k' = None
                     /\ evaluateFvCB x p = Err (KeyError k'))
  /\ (k ∈ lazy_keys -> is_Some (p !! "theta") -> is_Some (p !! "alphaG") ->
        evaluateFvCB [] p = Ok []).
Proof.
  intros Hlit Hclamp Hk Hnone.
  assert ("theta" ∈ eager_keys) as Hth by repeat constructor.
  assert ("alphaG" ∈ eager_keys) as HaG by repeat constructor.
  assert (forall k', k' ∈ eager_keys -> k' ∈ required_keys) as Heager
    by (intros; apply elem_of_app; by left).
  assert (forall k', k' ∈ lazy_keys -> k' ∈ required_keys) as Hlazy
    by (intros; apply elem_of_app; by right).
  assert (forall theta, pydiv ‹1› (pymax theta ‹0.0001›)
                        = Ok (‹1› / pymax theta ‹0.0001›)) as Hdiv.
  { intros theta. unfold pydiv. by rewrite Hclamp. }
  assert (forall x, x <> [] ->
            exists e, evaluateFvCB x p = Err e
              /\ ((exists k', k' ∈ required_keys /\ p !! k' = None /\ e = KeyError k')
                  \/ (e = ZeroDivisionError
                      /\ exists k' d, k' ∈ divisor_keys /\ p !! k' = Some d
                                       /\ fis_zero d = true))) as Hmain.
  { intros x Hx. unfold evaluateFvCB, getitem.
    destruct (p !! "theta") as [theta |] eqn:E1; cbn [mbind result_bind];
      [| eexists; split; [done |]; left; exists "theta"; auto].
    rewrite Hdiv. cbn [mbind result_bind].
    destruct (p !! "alphaG") as [alphaG |] eqn:E3; cbn [mbind result_bind];
      [| eexists; split; [done |]; left; exists "alphaG"; auto].
    assert (k ∈ lazy_keys) as Hkl.
    { destruct (required_keys_split k Hk) as [-> | [-> | H]]; [congruence .. | done]. }
    destruct (A_given_Cc_missing p k Hkl Hnone) as (e & He & HA).
    assert (forall s, eval_sample p (pymax theta ‹0.0001›) (‹1› / pymax theta ‹0.0001›)
                        alphaG (p !! "gm") s = Err e) as Hs.
    { intros [[Ci Q] T]. unfold eval_sample.
      destruct (p !! "gm") as [g |]; [| apply HA]. destruct (fle g _); [apply HA |].
      by rewrite (fixed_point_Err _ _ _ _ _ _ _ _ _ _ _ (HA _ _ _ _ _ _)). }
    exists e. split; [by apply for_each_Err |].
    destruct He as [[-> [Hz | Hz]] | (k' & Hk' & Hn' & ->)].
    - congruence.
    - by right.
    - left. exists k'. auto. }
  split; [| split; [exact Hmain | split]].
  - unfold eager_keys at 1. rewrite !elem_of_cons, elem_of_nil.
    intros [-> | [-> | []]] x; unfold evaluateFvCB, getitem.
    + exists "theta". rewrite Hnone. auto.
    + destruct (p !! "theta") as [theta |] eqn:E1; cbn [mbind result_bind];
        [| exists "theta"; auto].
      rewrite Hdiv. cbn [mbind result_bind]. rewrite Hnone. exists "alphaG". auto.
  - intros Hnz x Hx. destruct (Hmain x Hx) as (e & Hrun & [(k' & Hk' & Hn' & ->) | [_ Hz]]).
    + exists k'. auto.
    + destruct Hz as (k' & d & Hk' & Hd & Hz). rewrite (Hnz k' d Hk' Hd) in Hz. discriminate.
  - intros Hkl [theta H1] [alphaG H3].
    by rewrite (evaluateFvCB_intro _ _ _ _ _ H1 (Hdiv theta) H3).
Qed.
End Claims.

(** ** The specification: numerical properties and examples *)












(** C10, in exact arithmetic.  For [x > 0], [hmin(x, x)] is
    [x * (1 - sqrt(1 - 0.999)) / 0.999], about 0.96935 x and below [x].
    When two of the three rates are equal to [x > 0] the net assimilation
    is at most that value; when all three are, it is below [0.96 x]. *)
Theorem hmin_equal_rates (x : R) :
  0 < x ->
  hmin x x = x * hmin_factor
  /\ hmin x x < x
  /\ 0.96934 < hmin_factor < 0.96935
  /\ (forall t v j : R,
        (v = x /\ j = x) \/ (t = x /\ v = x) \/ (t = x /\ j = x) ->
        hmin t (hmin v j) <= x * hmin_factor)
  /\ hmin x (hmin x x) < 0.96 * x.
Proof.
  intros Hx. pose proof hmin_factor_bounds as Hc.
  split; [apply hmin_diag; lra |]. split; [rewrite (hmin_diag x) by lra; nra |].
  split; [done |]. split; [| by apply hmin_three_equal].
  intros t v j [[-> ->] | [[-> ->] | [-> ->]]].
  - rewrite (hmin_diag x) by lra. apply hmin_le_r.
  - rewrite <- (hmin_diag x) by lra. apply hmin_mono_r, hmin_le_l.
  - rewrite <- (hmin_diag x) by lra. apply hmin_mono_r, hmin_le_r.
Qed.

Lemma hmin_equal_rates_witness :
  0 < 2
  /\ hmin 2 2 = 2 * hmin_factor
  /\ hmin 2 2 < 2
  /\ hmin 5 (hmin 2 2) <= 2 * hmin_factor
  /\ hmin 2 (hmin 2 2) < 0.96 * 2.
Proof.
  assert (0 < 2) as H by lra.
  destruct (hmin_equal_rates 2 H) as (H1 & H2 & _ & H4 & H5).
  split; [exact H |]. split; [exact H1 |]. split; [exact H2 |].
  split; [| exact H5]. apply H4. left. split; reflexivity.
Defined.

(** C10 as stated fails.  With the three rates equal to 1 the net
    assimilation is below 0.96: more than 4 percent under the common value,
    and not [hmin_factor]; the factor itself is below 0.96935, not 0.96938.
    The program agrees: in binary64 [hmin(1, 1) = 0.9693465699682845] and
    [hmin(1, hmin(1, 1)) = 0.950921832789418].  Rounding puts
    [hmin(1e8, hmin(1, 1))] a little above [hmin(1, 1)]. *)
Lemma three_equal_rates_undershoot :
  hmin 1 (hmin 1 1) < 0.96
  /\ hmin 1 (hmin 1 1) <> 1 * hmin_factor
  /\ hmin_factor < 0.96935
  /\ (forall exp64 log64 : float -> float,
        let ops := B64_ops exp64 log64 in
        flt (hmin ‹1› ‹1›) ‹0.96935› = true
        /\ flt (hmin ‹1› (hmin ‹1› ‹1›)) ‹0.96› = true
        /\ flt (hmin ‹1› ‹1›) (hmin ‹100000000› (hmin ‹1› ‹1›)) = true)%fl.
Proof.
  pose proof hmin_three_ones. pose proof hmin_factor_bounds.
  split; [done |]. split; [lra |]. split; [lra |].
  intros exp64 log64. apply b64_hmin_ones.
Qed.

(** C1 as stated fails.  On the dark leaf with [gm = 1e7], the sample
    [(30, 0, 298)] leaves the loop in its second round by the convergence
    test.  The converged iterate is [Cc2_dark], yet the value stored is [A]
    at the iterate before it, [Cc1_dark], and the two differ. *)
Lemma stale_iterate_reported :
  let a := pymax 0.7 (fconst 0.0001) in
  let ia := fdiv (fconst 1) a in
  evaluateFvCB [(30, 0, 298)] p_dark_gm = Ok [A_dark Cc1_dark]
  /\ fixed_point p_dark_gm a ia 0 40 10000000 30 0 298
       (fsub 30 (fdiv (fconst 20) (fconst 0.2)))
     = Ok (Cc1_dark, 2%nat, Converged)
  /\ Cc_seq p_dark_gm a ia 0 10000000 30 0 298 2 = Cc2_dark
  /\ converged_at p_dark_gm a ia 0 10000000 30 0 298 1 = true
  /\ A_given_Cc p_dark_gm a ia 0 Cc2_dark 0 298 = Ok (A_dark Cc2_dark)
  /\ A_dark Cc2_dark <> A_dark Cc1_dark.
Proof.
  intros a ia.
  assert (forall k, k ∈ lazy_keys -> p_dark_gm !! k = p_dark !! k) as Hext.
  { intros k Hk. unfold p_dark_gm. apply lookup_insert_ne.
    intros <-. by apply gm_not_lazy. }
  assert (forall Cc, A_given_Cc p_dark_gm a ia 0 Cc 0 298 = A_given_Cc p_dark a ia 0 Cc 0 298)
    as HA by (intros; by apply A_given_Cc_ext).
  assert (Cc_seq p_dark_gm a ia 0 10000000 30 0 298 1 = Cc1_dark) as Hs1.
  { cbn [Cc_seq]. rewrite start_dark. unfold A_value.
    rewrite HA, A_given_Cc_dark by lra. apply step1_dark. }
  assert (Cc_seq p_dark_gm a ia 0 10000000 30 0 298 2 = Cc2_dark) as Hs2.
  { change (Cc_seq p_dark_gm a ia 0 10000000 30 0 298 2)
      with (fsub 30 (fdiv (A_value p_dark_gm a ia 0 0 298
                             (Cc_seq p_dark_gm a ia 0 10000000 30 0 298 1)) 10000000)).
    rewrite Hs1. unfold A_value.
    rewrite HA, A_given_Cc_dark by (unfold Cc1_dark; lra). reflexivity. }
  pose proof Cc2_dark_range as Hr.
  repeat split.
  - rewrite (evaluateFvCB_real _ p_dark_gm 0.7 0) by reflexivity.
    replace (p_dark_gm !! "gm") with (Some 10000000 : option R) by reflexivity.
    cbn [for_each]. rewrite (eval_sample_ext p_dark_gm p_dark Hext).
    by rewrite eval_sample_dark_gm.
  - rewrite (fixed_point_ext p_dark_gm p_dark Hext). apply fixed_point_dark.
  - exact Hs2.
  - unfold converged_at. rewrite Hs2, Hs1. apply test_passes. unfold Cc1_dark. lra.
  - rewrite HA. apply A_given_Cc_dark; lra.
  - intros Heq. apply A_dark_inj in Heq; unfold Cc1_dark in *; lra.
Qed.

(** C7 as stated fails.  Without [Vcmax25] the call on the empty batch
    returns the empty output. *)
Lemma missing_key_empty_batch :
  delete "Vcmax25" p_dark !! "Vcmax25" = None
  /\ evaluateFvCB [] (delete "Vcmax25" p_dark) = Ok [].
Proof.
  split; [apply lookup_delete_eq |].
  rewrite (evaluateFvCB_real _ _ 0.7 0); [done | |];
    rewrite lookup_delete_ne by done; reflexivity.
Qed.

(** *** The control-flow theorems at concrete inputs *)

Lemma big_gm_enabled : fle 10000000 (fconst 0) = false.
Proof. apply fle_real_false. real_ops. rewrite Q2R_int. lra. Qed.


Lemma small_gm_enabled : fle 0.000001 (fconst 0) = false.
Proof. apply fle_real_false. real_ops. rewrite Q2R_int. lra. Qed.

Lemma Cc_seq_slow_40 (a ia alphaG : R) :
  Cc_seq p_dark a ia alphaG 0.000001 30 0 298 40 = 30.
Proof. apply (proj1 (Cc_seq_slow a ia alphaG 19)). Qed.

(** A run that reaches the cap: the dark leaf with [gm = 1e-6].  None of
    the 40 tests passes, the loop makes its 40 rounds and leaves [Cc_40],
    which is 30, and the sample gets [A(30)]. *)
Lemma fixed_point_capped_witness :
  fle 0.000001 (fconst 0) = false
  /\ (forall i, converged_at p_dark 0.7 1 0 0.000001 30 0 298 i = false)
  /\ fixed_point p_dark 0.7 1 0 40 0.000001 30 0 298
       (fsub 30 (fdiv (fconst 20) (fconst 0.2)))
     = Ok (30, 40%nat, CappedOut)
  /\ eval_sample p_dark 0.7 1 0 (Some 0.000001) (30, 0, 298) = Ok (A_dark 30).
Proof.
  split; [exact small_gm_enabled |].
  split; [exact (never_converged 0.7 1 0) |].
  destruct (fixed_point_capped p_dark 0.7 1 0 0.000001 30 0 298 small_gm_enabled)
    as [(e & He & _) | (Cc' & k & e & v & Hrun & _ & Hev & HA & Hcap & _)].
  - destruct (params_ok_not_raised p_dark e real_literal_1000 params_ok_dark He).
  - destruct (Hcap (fun i _ => never_converged 0.7 1 0 i)) as (He & Hk & HCc).
    rewrite Cc_seq_slow_40 in HCc. subst e k Cc'.
    rewrite (A_given_Cc_dark 0.7 1 0 30 0) in HA by lra.
    injection HA as <-. split; [exact Hrun | exact Hev].
Defined.

Lemma reported_value_at_exit_witness :
  exists Cc' k e,
    fixed_point p_dark 0.7 1 0 40 10000000 30 0 298
      (fsub 30 (fdiv (fconst 20) (fconst 0.2))) = Ok (Cc', k, e)
    /\ A_given_Cc p_dark 0.7 1 0 Cc' 0 298 = Ok (A_dark Cc1_dark)
    /\ match e with
       | Converged =>
           exists m, k = S m /\ (m < 40)%nat
             /\ Cc' = Cc_seq p_dark 0.7 1 0 10000000 30 0 298 m
             /\ converged_at p_dark 0.7 1 0 10000000 30 0 298 m = true
             /\ forall i, (i < m)%nat ->
                  converged_at p_dark 0.7 1 0 10000000 30 0 298 i = false
       | CappedOut =>
           k = 40%nat /\ Cc' = Cc_seq p_dark 0.7 1 0 10000000 30 0 298 40
           /\ forall i, (i < 40)%nat ->
                converged_at p_dark 0.7 1 0 10000000 30 0 298 i = false
       end.
Proof.
  exact (reported_value_at_exit p_dark 0.7 1 0 10000000 30 0 298 (A_dark Cc1_dark)
           big_gm_enabled (eval_sample_dark_gm 0.7 1 0)).
Defined.

Lemma evaluateFvCB_dark_two :
  evaluateFvCB [(30, 0, 298); (50, 0, 298)] p_dark = Ok [A_dark 30; 0].
Proof.
  rewrite (evaluateFvCB_real _ p_dark 0.7 0) by reflexivity.
  replace (p_dark !! "gm") with (@None R) by reflexivity.
  cbn [for_each eval_sample].
  rewrite (A_given_Cc_dark _ _ _ 30) by lra. cbn [mbind result_bind].
  rewrite (A_given_Cc_dark_zero _ _ _ 50) by lra. reflexivity.
Qed.

Lemma batch_independence_witness :
  length [A_dark 30; 0] = length [(30, 0, 298); (50, 0, 298)]
  /\ evaluateFvCB [(50, 0, 298)] p_dark = Ok [0]
  /\ evaluateFvCB [(50, 0, 298); (30, 0, 298)] p_dark = Ok [0; A_dark 30].
Proof.
  destruct (proj2 (batch_independence [(30, 0, 298); (50, 0, 298)] p_dark)
              [A_dark 30; 0] evaluateFvCB_dark_two) as (Hlen & Hi & Hrows).
  split; [exact Hlen |]. split.
  - destruct (Hi 1%nat (50, 0, 298) eq_refl) as (v & Hv & Hrun).
    injection Hv as <-. exact Hrun.
  - apply (Hrows [1%nat; 0%nat]). repeat constructor.
Defined.

(** Without [Vcmax25] the call on one sample raises [KeyError] for that
    key; without [theta] the call on the empty batch raises. *)
Lemma missing_key_failure_witness :
  evaluateFvCB [(30, 0, 298)] (delete "Vcmax25" p_dark) = Err (KeyError "Vcmax25")
  /\ evaluateFvCB [] (delete "theta" p_dark) = Err (KeyError "theta").
Proof.
  assert (forall k0 k', k' ∈ required_keys -> delete k0 p_dark !! k' = None -> k' = k0)
    as Honly.
  { intros k0 k' Hk' Hnone. destruct (decide (k' = k0)) as [| Hne]; [done |].
    rewrite lookup_delete_ne in Hnone by done.
    destruct (proj1 params_ok_dark k' Hk') as [w Hw]. congruence. }
  split.
  - assert ("Vcmax25" ∈ required_keys) as H1 by (apply elem_of_app; right; in_keys).
    destruct (missing_key_failure (delete "Vcmax25" p_dark) "Vcmax25"
                real_literal_1000 real_clamp_nonzero H1 (lookup_delete_eq _ _))
      as (_ & _ & Hkey & _).
    destruct (Hkey (fun k' d Hk' Hd =>
                      proj2 params_ok_dark k' d Hk'
                        (proj2 (proj1 (lookup_delete_Some _ _ _ _) Hd)))
                   [(30, 0, 298)] ltac:(done))
      as (k' & Hk' & Hnone & Hrun).
    rewrite (Honly _ _ Hk' Hnone) in Hrun. exact Hrun.
  - assert ("theta" ∈ required_keys) as H1 by (apply elem_of_app; left; repeat constructor).
    destruct (missing_key_failure (delete "theta" p_dark) "theta"
                real_literal_1000 real_clamp_nonzero H1 (lookup_delete_eq _ _))
      as (Heager & _).
    destruct (Heager ltac:(repeat constructor) []) as (k' & Hk' & Hnone & Hrun).
    assert (k' ∈ required_keys) as Hreq by (apply elem_of_app; by left).
    rewrite (Honly _ _ Hreq Hnone) in Hrun. exact Hrun.
Defined.

(** ** Further properties of the code: exceptions and keys *)

Section MoreControl.
Context {F : Type} {ops : FloatOps F}.
Implicit Types (p : gmap string F) (x : list (sample F)).
Local Open Scope num_scope.

(** Keys that [evaluateFvCB] does not know are ignored. *)
Theorem unknown_key_ignored x p k v :
  k ∉ required_keys -> k <> "gm" ->
  evaluateFvCB x (<[k := v]> p) = evaluateFvCB x p.
Proof.
  intros Hk Hgm.
  assert (forall k', k' ∈ required_keys -> <[k := v]> p !! k' = p !! k') as Hreq.
  { intros k' Hk'. apply lookup_insert_ne. by intros ->. }
  unfold evaluateFvCB, getitem.
  rewrite (Hreq "theta"), (Hreq "alphaG") by (apply elem_of_app; left; repeat constructor).
  rewrite (lookup_insert_ne p k "gm") by done.
  destruct (p !! "theta") as [theta |]; cbn [mbind result_bind]; [| done].
  destruct (pydiv _ _) as [ia |]; cbn [mbind result_bind]; [| done].
  destruct (p !! "alphaG") as [alphaG |]; cbn [mbind result_bind]; [| done].
  apply for_each_ext. intros s. apply eval_sample_ext.
  intros k' Hk'. apply Hreq. apply elem_of_app. by right.
Qed.

(** The order in which missing keys are reported: [theta] first, then
    [alphaG], both on every batch; then, on a non-empty batch, [TPU25],
    the first key a sample reads. *)
Theorem missing_key_order x p :
  (p !! "theta" = None -> evaluateFvCB x p = Err (KeyError "theta"))
  /\ (forall theta ia,
        p !! "theta" = Some theta -> pydiv ‹1› (pymax theta ‹0.0001›) = Ok ia ->
        (p !! "alphaG" = None -> evaluateFvCB x p = Err (KeyError "alphaG"))
        /\ (forall alphaG, p !! "alphaG" = Some alphaG -> p !! "TPU25" = None ->
              x <> [] -> evaluateFvCB x p = Err (KeyError "TPU25"))).
Proof.
  split.
  - intros H. unfold evaluateFvCB, getitem. by rewrite H.
  - intros theta ia H1 H2. split.
    + intros H3. unfold evaluateFvCB, getitem.
      rewrite H1. cbn [mbind result_bind]. rewrite H2. cbn [mbind result_bind].
      by rewrite H3.
    + intros alphaG H3 H4 Hx. rewrite (evaluateFvCB_intro _ _ _ _ _ H1 H2 H3).
      assert (forall a' ia' aG' Cc Q T,
                A_given_Cc p a' ia' aG' Cc Q T = Err (KeyError "TPU25")) as HA.
      { intros. unfold A_given_Cc, tpu, TPU, getitem. by rewrite H4. }
      apply for_each_Err; [done |]. intros [[Ci Q] T]. unfold eval_sample.
      destruct (p !! "gm") as [g |]; [| apply HA]. destruct (fle g _); [apply HA |].
      by rewrite (fixed_point_Err _ _ _ _ _ _ _ _ _ _ _ (HA _ _ _ _ _ _)).
Qed.

(** A run that is left by the convergence test gives the same result under
    any larger cap on the number of rounds. *)
Theorem fixed_point_cap_irrelevant p a ia alphaG n n' g Ci Q T Cc Cc' k :
  fixed_point p a ia alphaG n g Ci Q T Cc = Ok (Cc', k, Converged) ->
  (n <= n')%nat ->
  fixed_point p a ia alphaG n' g Ci Q T Cc = Ok (Cc', k, Converged).
Proof.
  revert n' Cc k. induction n as [| n IH]; intros n' Cc k; cbn [fixed_point]; [done |].
  intros Hrun Hle. destruct n' as [| n']; [lia |]. cbn [fixed_point].
  destruct (A_given_Cc p a ia alphaG Cc Q T) as [A_i |]; cbn [mbind result_bind] in *;
    [| done].
  destruct (flt _ _); [done |].
  destruct (fixed_point p a ia alphaG n g Ci Q T _) as [[[c1 k1] e1] |] eqn:E;
    cbn [mbind result_bind] in Hrun; [| done].
  injection Hrun as <- <- ->.
  rewrite (IH n' _ _ E) by lia. done.
Qed.
End MoreControl.

(** ** Further properties of the code, over the reals *)

(** Over the reals, a call on a non-empty batch returns exactly when the
    parameter set is usable: every required key present, no [dHa] and none
    of the three [Topt] zero.  No other input makes it raise: not [theta],
    not [gm], not the samples. *)
Theorem returns_iff_params_ok (x : list (sample R)) (p : gmap string R) :
  x <> [] -> (exists out, evaluateFvCB x p = Ok out) <-> params_ok p.
Proof.
  intros Hx. split.
  - intros [out Hrun]. by eapply returns_only_if_params_ok.
  - apply params_ok_returns; [apply real_literal_1000 | apply real_clamp_nonzero].
Qed.

Lemma returns_iff_params_ok_witness :
  exists out, evaluateFvCB [(300, 1000, 298)] p_std = Ok out.
Proof.
  assert ([(300, 1000, 298)] <> ([] : list (sample R))) as H by done.
  exact (proj2 (returns_iff_params_ok [(300, 1000, 298)] p_std H) params_ok_std).
Defined.

(** Over the reals, when every required key is present but a [dHa] or one
    of the three [Topt] is zero, every call on a non-empty batch raises
    [ZeroDivisionError]. *)
Theorem zero_divisor_raises (x : list (sample R)) (p : gmap string R) (k : string) :
  (forall k', k' ∈ required_keys -> is_Some (p !! k')) ->
  k ∈ divisor_keys -> p !! k = Some 0 ->
  x <> [] -> evaluateFvCB x p = Err ZeroDivisionError.
Proof.
  intros Hall Hk Hzero Hx.
  apply (zero_divisor_Err x p k 0); [apply real_clamp_nonzero | done .. | | done].
  real_ops. destruct (Req_dec_T 0 0); [reflexivity | contradiction].
Qed.

Lemma zero_divisor_raises_witness :
  evaluateFvCB [(300, 1000, 298)] (<["Rd_dHa" := 0]> p_std) = Err ZeroDivisionError.
Proof.
  apply (zero_divisor_raises _ _ "Rd_dHa").
  - intros k Hk. destruct (decide (k = "Rd_dHa")) as [-> | Hne].
    + rewrite lookup_insert_eq. by eexists.
    + rewrite lookup_insert_ne by done. by apply (proj1 params_ok_std).
  - unfold divisor_keys. repeat constructor.
  - apply lookup_insert_eq.
  - done.
Defined.



Lemma fixed_point_cap_irrelevant_witness :
  fixed_point p_dark 0.7 1 0 100 10000000 30 0 298
    (fsub 30 (fdiv (fconst 20) (fconst 0.2)))
  = Ok (Cc1_dark, 2%nat, Converged).
Proof.
  apply (fixed_point_cap_irrelevant p_dark 0.7 1 0 40 100 10000000 30 0 298 _ _ _
           (fixed_point_dark 0.7 1 0)).
  lia.
Defined.

Lemma species_not_required : "species" ∉ required_keys.
Proof.
  unfold required_keys, eager_keys, lazy_keys. cbn [app]. intros H.
  repeat (apply elem_of_cons in H as [H | H]; [discriminate H |]).
  by apply elem_of_nil in H.
Qed.

Lemma unknown_key_ignored_witness :
  evaluateFvCB [(30, 0, 298)] (<["species" := 1]> p_dark)
  = evaluateFvCB [(30, 0, 298)] p_dark.
Proof.
  apply unknown_key_ignored; [apply species_not_required | done].
Defined.

Lemma missing_key_order_witness :
  evaluateFvCB [(30, 0, 298)] (delete "theta" (delete "TPU25" p_dark))
  = Err (KeyError "theta").
Proof.
  apply (proj1 (missing_key_order [(30, 0, 298)] (delete "theta" (delete "TPU25" p_dark)))).
  apply lookup_delete_eq.
Defined.
